(** * SpeedHQ encoder: bitstream emission core (libavcodec/speedhqenc.c)

    A shallow embedding of the functions of [speedhqenc.c] and the
    properties of its slice framing, DC/AC entropy coding and macroblock
    ordering.

    Conventions.
    - C [int] values are integers of [Z].  Signed overflow is undefined in
      C and does not occur for the 16-bit coefficients the encoder is fed,
      so signed arithmetic is plain [Z] arithmetic; conversions to unsigned
      types ([unsigned int], [uint32_t]) are written out with [mod].
    - C arrays are lists, read with [rd] and written with [wr]; an access
      outside the array (undefined in C) reads 0 and writes nothing.
    - The bit writer of [put_bits.h], the tables of [mpeg12data.c] and
      [speedhq.c] and the helpers of libavutil are declared outside
      [speedhqenc.c]: the bit writer is an interface ([BitWriter]) with two
      instances, the external tables are the fields of [ExternTables]. *)

From stdpp Require Import base numbers list.
From Stdlib Require Import ZArith Lia.

Open Scope Z_scope.

(** ** Arrays and loops *)

(** [a[i]] for an [int] index. *)
Definition rd (l : list Z) (i : Z) : Z :=
  if 0 <=? i then nth (Z.to_nat i) l 0 else 0.

(** [a[i] = v]. *)
Definition wr (l : list Z) (i : Z) (v : Z) : list Z :=
  if 0 <=? i then <[Z.to_nat i := v]> l else l.

(** Row [i] of a two-column table such as [ff_speedhq_vlc_table]. *)
Definition rd2 (l : list (Z * Z)) (i : Z) : Z * Z :=
  if 0 <=? i then nth (Z.to_nat i) l (0, 0) else (0, 0).

(** [for (i = lo; <cnt iterations>; i++) a = body i a]. *)
Fixpoint for_range {A : Type} (cnt : nat) (i : Z) (body : Z -> A -> A) (a : A) : A :=
  match cnt with
  | O => a
  | S c => for_range c (i + 1) body (body i a)
  end.

(** The indices visited by [for_range cnt lo]. *)
Fixpoint zseq (lo : Z) (cnt : nat) : list Z :=
  match cnt with
  | O => []
  | S c => lo :: zseq (lo + 1) c
  end.

(** ** The bit writer interface *)

(** The operations of [PutBitContext] used by the block coder. *)
Class BitWriter (W : Type) := {
  put_bits_le : W -> Z -> Z -> W;
  put_bits_count : W -> Z
}.

(** A run of [put_bits_le] calls, as pairs (number of bits, value). *)
Definition put_all {W : Type} `{BitWriter W} (pb : W) (ops : list (Z * Z)) : W :=
  fold_left (fun w op => put_bits_le w (fst op) (snd op)) ops pb.

(** *** A writer that records its calls *)

(** The list of [(n, value)] arguments [put_bits_le] was called with, oldest
    first. *)
Definition PutLog : Type := list (Z * Z).

#[export] Instance PutLog_writer : BitWriter PutLog := {|
  put_bits_le := fun l n v => l ++ [(n, v)];
  put_bits_count := fun l => fold_right Z.add 0 (map fst l)
|}.

(** *** The little-endian byte writer *)

(** [k] bytes of [x], least significant first. *)
Fixpoint le_bytes (k : nat) (x : Z) : list Z :=
  match k with
  | O => []
  | S k' => x mod 256 :: le_bytes k' (x / 256)
  end.

(** Modelled from the spec: the bit writer of [put_bits.h], which is not among
    the sources.  A growable byte buffer [buf] of completed bytes (its length
    is the byte cursor), the bits of the byte under construction [bit_buf]
    and the sub-byte cursor [bit_pos] in 0..7. *)
Record PutBitContext := mkPutBitContext {
  buf : list Z;
  bit_buf : Z;
  bit_pos : Z
}.

(** Modelled from the spec: [put_bits_le] appends the [n] low bits of [value]
    LSB-first; bit 0 goes to the lowest unused bit of the current byte, and a
    byte that fills is moved to the buffer. *)
Definition put_bits_le_bytes (s : PutBitContext) (n value : Z) : PutBitContext :=
  let acc := bit_buf s + (value mod 2 ^ n) * 2 ^ bit_pos s in
  let tot := bit_pos s + n in
  {| buf := buf s ++ le_bytes (Z.to_nat (tot / 8)) acc;
     bit_buf := acc / 2 ^ (8 * (tot / 8));
     bit_pos := tot mod 8 |}.

(** Modelled from the spec: [flush_put_bits_le] aligns the cursor to the next
    byte boundary by zero-padding the rest of the current byte. *)
Definition flush_put_bits_le (s : PutBitContext) : PutBitContext :=
  if 0 <? bit_pos s
  then {| buf := buf s ++ [bit_buf s]; bit_buf := 0; bit_pos := 0 |}
  else s.

(** Modelled from the spec: [put_bytes_output], the current byte offset. *)
Definition put_bytes_output (s : PutBitContext) : Z := Z.of_nat (length (buf s)).

(** Modelled from the spec: [AV_WL24(p, v)] stores [v] as a little-endian
    24-bit value in the three bytes at [p]. *)
Definition AV_WL24 (b : list Z) (off : Z) (v : Z) : list Z :=
  wr (wr (wr b off (v mod 256)) (off + 1) (v / 256 mod 256))
     (off + 2) (v / 65536 mod 256).

(** Modelled from the spec: [AV_RL24(p)], the little-endian 24-bit value of
    the three bytes at [p] (the reader's view of a slice-length field). *)
Definition AV_RL24 (b : list Z) (off : Z) : Z :=
  rd b off + 256 * rd b (off + 1) + 65536 * rd b (off + 2).

#[export] Instance PutBitContext_writer : BitWriter PutBitContext := {|
  put_bits_le := put_bits_le_bytes;
  put_bits_count := fun s => 8 * put_bytes_output s + bit_pos s
|}.

(** The writer of an empty output buffer. *)
Definition init_put_bits : PutBitContext :=
  {| buf := []; bit_buf := 0; bit_pos := 0 |}.

(** ** Static tables *)

(** The tables declared outside [speedhqenc.c]: the MPEG-1/2 DC code lengths
    of [mpeg12data.c], the run/level tables that [ff_rl_init_level_run]
    derives from [ff_speedhq_run] and [ff_speedhq_level], and the AC code
    table of [speedhq.c] with rows (code, length). *)
Class ExternTables := {
  ff_mpeg12_vlc_dc_lum_bits : list Z;
  ff_mpeg12_vlc_dc_chroma_bits : list Z;
  speedhq_max_level : list Z;
  speedhq_index_run : list Z;
  ff_speedhq_vlc_table : list (Z * Z)
}.

(** Exactly the same as MPEG-2, except little-endian. *)
Definition mpeg12_vlc_dc_lum_code_reversed : list Z :=
  [0x1; 0x0; 0x2; 0x5; 0x3; 0x7; 0xF; 0x1F; 0x3F; 0x7F; 0xFF; 0x1FF].

Definition mpeg12_vlc_dc_chroma_code_reversed : list Z :=
  [0x0; 0x2; 0x1; 0x3; 0x7; 0xF; 0x1F; 0x3F; 0x7F; 0xFF; 0x1FF; 0x3FF].

(** Modelled from the spec: [av_log2] of libavutil,
    [floor(log2(max(v, 1)))]. *)
Definition av_log2 (v : Z) : Z := Z.log2 (Z.max v 1).

(** Modelled from the spec: [av_log2_16bit] of libavutil, the same logarithm
    for arguments below [2^16]. *)
Definition av_log2_16bit (v : Z) : Z := Z.log2 v.

(** Modelled from the spec: [av_zero_extend(a, p)] of libavutil keeps the [p]
    low bits of [a] read as an unsigned 32-bit value. *)
Definition av_zero_extend (a p : Z) : Z := Z.land (a mod 2 ^ 32) (2 ^ p - 1).

(** Modelled from the spec: [MASK_ABS(mask, level)] of [mathops.h] leaves the
    absolute value in [level] and a mask in [mask] that is nonzero in its low
    bit exactly for a negative [level]; written in its branch-free form on
    32-bit [int]. *)
Definition MASK_ABS (level : Z) : Z * Z :=
  let mask := Z.shiftr level 31 in
  (mask, Z.lxor level mask - mask).

Section Tables.
Context `{T : ExternTables}.

(** Body of the loop of [speedhq_init_static_data] for one table: the packed
    entry for DC difference [i]. *)
Definition dc_uni_entry (bits_tab code_tab : list Z) (i : Z) : Z :=
  let diff := i in
  let adiff := Z.abs diff in
  let diff := if diff <? 0 then diff - 1 else diff in
  let index := av_log2 (2 * adiff) in
  let bits := rd bits_tab index + index in
  let code := rd code_tab index +
              Z.shiftl (av_zero_extend diff index) (rd bits_tab index) in
  (bits + Z.shiftl code 8) mod 2 ^ 32.

(** [speedhq_init_static_data]: the unified DC tables
    ([speedhq_lum_dc_uni], [speedhq_chr_dc_uni]), built in two zeroed arrays
    of 512 entries. *)
Definition speedhq_init_static_data : list Z * list Z :=
  for_range 511 (-255)
    (fun i tabs =>
       (wr (fst tabs) (i + 255)
           (dc_uni_entry ff_mpeg12_vlc_dc_lum_bits mpeg12_vlc_dc_lum_code_reversed i),
        wr (snd tabs) (i + 255)
           (dc_uni_entry ff_mpeg12_vlc_dc_chroma_bits mpeg12_vlc_dc_chroma_code_reversed i)))
    (replicate 512 0, replicate 512 0).

Definition speedhq_lum_dc_uni : list Z := fst speedhq_init_static_data.
Definition speedhq_chr_dc_uni : list Z := snd speedhq_init_static_data.

End Tables.

(** ** Encoder context *)

Inductive AVPixelFormat :=
  | AV_PIX_FMT_YUV420P
  | AV_PIX_FMT_YUV422P
  | AV_PIX_FMT_YUV444P
  | AV_PIX_FMT_OTHER.

Inductive ChromaFormat := CHROMA_420 | CHROMA_422 | CHROMA_444.

(** The fields of [MpegEncContext] that [speedhqenc.c] reads or writes,
    together with [slice_start] of [SpeedHQEncContext]. *)
Record SpeedHQEncContext (W : Type) := mkCtx {
  width : Z;
  height : Z;
  pix_fmt : AVPixelFormat;
  codec_tag : Z;
  min_qcoeff : Z;
  max_qcoeff : Z;
  qscale : Z;
  chroma_format : ChromaFormat;
  pb : W;
  last_dc : list Z;
  block_last_index : list Z;
  permutated : list Z;
  i_tex_bits : Z;
  last_bits : Z;
  slice_start : Z
}.

Arguments mkCtx {W}.
Arguments width {W}.
Arguments height {W}.
Arguments pix_fmt {W}.
Arguments codec_tag {W}.
Arguments min_qcoeff {W}.
Arguments max_qcoeff {W}.
Arguments qscale {W}.
Arguments chroma_format {W}.
Arguments pb {W}.
Arguments last_dc {W}.
Arguments block_last_index {W}.
Arguments permutated {W}.
Arguments i_tex_bits {W}.
Arguments last_bits {W}.
Arguments slice_start {W}.

(** [s->pb = p]; the new writer may be of another implementation. *)
Definition set_pb {W W' : Type} (s : SpeedHQEncContext W) (p : W') : SpeedHQEncContext W' :=
  mkCtx (width s) (height s) (pix_fmt s) (codec_tag s) (min_qcoeff s)
        (max_qcoeff s) (qscale s) (chroma_format s) p (last_dc s)
        (block_last_index s) (permutated s) (i_tex_bits s) (last_bits s)
        (slice_start s).

Section Setters.
Context {W : Type}.

Definition set_last_dc (s : SpeedHQEncContext W) (d : list Z) : SpeedHQEncContext W :=
  mkCtx (width s) (height s) (pix_fmt s) (codec_tag s) (min_qcoeff s)
        (max_qcoeff s) (qscale s) (chroma_format s) (pb s) d
        (block_last_index s) (permutated s) (i_tex_bits s) (last_bits s)
        (slice_start s).

Definition set_slice_start (s : SpeedHQEncContext W) (o : Z) : SpeedHQEncContext W :=
  mkCtx (width s) (height s) (pix_fmt s) (codec_tag s) (min_qcoeff s)
        (max_qcoeff s) (qscale s) (chroma_format s) (pb s) (last_dc s)
        (block_last_index s) (permutated s) (i_tex_bits s) (last_bits s) o.

Definition set_tex_bits (s : SpeedHQEncContext W) (t l : Z) : SpeedHQEncContext W :=
  mkCtx (width s) (height s) (pix_fmt s) (codec_tag s) (min_qcoeff s)
        (max_qcoeff s) (qscale s) (chroma_format s) (pb s) (last_dc s)
        (block_last_index s) (permutated s) t l (slice_start s).

Definition set_qcoeff_tag (s : SpeedHQEncContext W) (lo hi tag : Z) : SpeedHQEncContext W :=
  mkCtx (width s) (height s) (pix_fmt s) tag lo hi (qscale s)
        (chroma_format s) (pb s) (last_dc s) (block_last_index s)
        (permutated s) (i_tex_bits s) (last_bits s) (slice_start s).

End Setters.

(** ** Initialisation *)

(** [MKTAG(a, b, c, d)] of libavutil, declared outside [speedhqenc.c]: four
    characters packed into an integer, the first in the low byte. *)
Definition MKTAG (a b c d : Z) : Z :=
  Z.lor (Z.lor (Z.lor a (Z.shiftl b 8)) (Z.shiftl c 16)) (Z.shiftl d 24).

(** Modelled from the spec: the invalid-argument error of [errno.h]. *)
Definition EINVAL : Z := 22.

(** Modelled from the spec: [AVERROR(e)] of libavutil's [error.h], the
    negative code returned for the error [e]. *)
Definition AVERROR (e : Z) : Z := - e.

(** [AVERROR_PATCHWELCOME] of libavutil's [error.h], declared outside
    [speedhqenc.c]: the negated tag of the characters P, A, W, E. *)
Definition AVERROR_PATCHWELCOME : Z := - MKTAG 80 65 87 69.

(** Outcome of [ff_speedhq_encode_init]: the returned [int] with the context
    as the call leaves it, or the abort of [av_assert0(0)]. *)
Inductive InitOutcome (W : Type) :=
  | Returned (ret : Z) (s : SpeedHQEncContext W)
  | Aborted.
Arguments Returned {W}.
Arguments Aborted {W}.

Section Encoder.
Context {W : Type} `{BW : BitWriter W} `{T : ExternTables}.

Definition ff_speedhq_encode_init (s : SpeedHQEncContext W) : InitOutcome W :=
  if (65500 <? width s) || (65500 <? height s) then
    Returned (AVERROR EINVAL) s
  else if negb (Z.rem (width s) 16 =? 0) then
    Returned AVERROR_PATCHWELCOME s
  else
    let lo := -2048 in
    let hi := 2047 in
    match pix_fmt s with
    | AV_PIX_FMT_YUV420P => Returned 0 (set_qcoeff_tag s lo hi (MKTAG 83 72 81 48))
    | AV_PIX_FMT_YUV422P => Returned 0 (set_qcoeff_tag s lo hi (MKTAG 83 72 81 50))
    | AV_PIX_FMT_YUV444P => Returned 0 (set_qcoeff_tag s lo hi (MKTAG 83 72 81 52))
    | AV_PIX_FMT_OTHER => Aborted
    end.

(** ** Picture header *)

Definition ff_speedhq_encode_picture_header (s : SpeedHQEncContext W) : SpeedHQEncContext W :=
  let pb1 := put_bits_le (pb s) 8 (100 - qscale s * 2) in
  let pb2 := put_bits_le pb1 24 4 in
  let s1 := set_slice_start (set_pb s pb2) 4 in
  set_pb s1 (put_bits_le (pb s1) 24 0).

(** ** DC coefficients *)

(** The arm of [encode_dc] taken when [diff_u >= 511]. *)
Definition encode_dc_slow (pb : W) (diff component : Z) : W :=
  let '(index, diff) :=
    if diff <? 0 then (av_log2_16bit (-2 * diff), diff - 1)
    else (av_log2_16bit (2 * diff), diff) in
  if component =? 0 then
    put_bits_le pb
      (rd ff_mpeg12_vlc_dc_lum_bits index + index)
      (rd mpeg12_vlc_dc_lum_code_reversed index +
       Z.shiftl (av_zero_extend diff index) (rd ff_mpeg12_vlc_dc_lum_bits index))
  else
    put_bits_le pb
      (rd ff_mpeg12_vlc_dc_chroma_bits index + index)
      (rd mpeg12_vlc_dc_chroma_code_reversed index +
       Z.shiftl (av_zero_extend diff index) (rd ff_mpeg12_vlc_dc_chroma_bits index)).

(** The arm of [encode_dc] taken otherwise: one lookup in the unified
    table. *)
Definition encode_dc_fast (pb : W) (diff component : Z) : W :=
  if component =? 0 then
    put_bits_le pb
      (Z.land (rd speedhq_lum_dc_uni (diff + 255)) 0xFF)
      (Z.shiftr (rd speedhq_lum_dc_uni (diff + 255)) 8)
  else
    put_bits_le pb
      (Z.land (rd speedhq_chr_dc_uni (diff + 255)) 0xFF)
      (Z.shiftr (rd speedhq_chr_dc_uni (diff + 255)) 8).

Definition encode_dc (pb : W) (diff component : Z) : W :=
  let diff_u := (diff + 255) mod 2 ^ 32 in
  if 511 <=? diff_u then encode_dc_slow pb diff component
  else encode_dc_fast pb diff component.

(** ** Blocks *)

(** Body of the AC loop of [encode_block] at scan position [i]; the loop
    state is the writer and [last_non_zero]. *)
Definition ac_body (s : SpeedHQEncContext W) (block : list Z) (i : Z)
    (st : W * Z) : W * Z :=
  let '(pb, last_non_zero) := st in
  let j := rd (permutated s) i in
  let level := rd block j in
  if negb (level =? 0) then
    let run := i - last_non_zero - 1 in
    let '(sign, alevel) := MASK_ABS level in
    let sign := Z.land sign 1 in
    if alevel <=? rd speedhq_max_level run then
      let code := rd speedhq_index_run run + alevel - 1 in
      (put_bits_le pb (snd (rd2 ff_speedhq_vlc_table code) + 1)
         (Z.lor (fst (rd2 ff_speedhq_vlc_table code))
                (Z.shiftl sign (snd (rd2 ff_speedhq_vlc_table code)))), i)
    else
      let pb := put_bits_le pb 6 32 in
      let pb := put_bits_le pb 6 run in
      (put_bits_le pb 12 (level + 2048), i)
  else (pb, last_non_zero).

Definition encode_block (s : SpeedHQEncContext W) (block : list Z) (n : Z)
    : SpeedHQEncContext W :=
  let component := if n <=? 3 then 0 else Z.land n 1 + 1 in
  let dc := rd block 0 in
  let val := rd (last_dc s) component - dc in
  let s := set_pb s (encode_dc (pb s) val component) in
  let s := set_last_dc s (wr (last_dc s) component dc) in
  let last_index := rd (block_last_index s) n in
  let st := for_range (Z.to_nat last_index) 1 (ac_body s block) (pb s, 0) in
  set_pb s (put_bits_le (fst st) 4 6).

(** ** Macroblocks *)

(** Modelled from the spec: [get_bits_diff] of [mpegvideoenc.h], the number of
    bits written since it was last called. *)
Definition get_bits_diff (s : SpeedHQEncContext W) : Z * SpeedHQEncContext W :=
  let bits := put_bits_count (pb s) in
  (bits - last_bits s, set_tex_bits s (i_tex_bits s) bits).

(** [block[i]] of the [int16_t block[12][64]] argument. *)
Definition rd_block (block : list (list Z)) (i : Z) : list Z :=
  if 0 <=? i then nth (Z.to_nat i) block [] else [].

Definition ff_speedhq_encode_mb (s : SpeedHQEncContext W) (block : list (list Z))
    : SpeedHQEncContext W :=
  let s := for_range 6 0 (fun i s => encode_block s (rd_block block i) i) s in
  let s :=
    match chroma_format s with
    | CHROMA_444 =>
        let s := encode_block s (rd_block block 8) 8 in
        let s := encode_block s (rd_block block 9) 9 in
        let s := encode_block s (rd_block block 6) 6 in
        let s := encode_block s (rd_block block 7) 7 in
        let s := encode_block s (rd_block block 10) 10 in
        encode_block s (rd_block block 11) 11
    | CHROMA_422 =>
        let s := encode_block s (rd_block block 6) 6 in
        encode_block s (rd_block block 7) 7
    | CHROMA_420 => s
    end in
  let '(d, s) := get_bits_diff s in
  set_tex_bits s (i_tex_bits s + d) (last_bits s).

End Encoder.

(** ** Slice framing *)

Definition ff_speedhq_end_slice (s : SpeedHQEncContext PutBitContext)
    : SpeedHQEncContext PutBitContext :=
  let s := set_pb s (flush_put_bits_le (pb s)) in
  let slice_len := put_bytes_output (pb s) - slice_start s in
  let s := set_pb s {| buf := AV_WL24 (buf (pb s)) (slice_start s) slice_len;
                       bit_buf := bit_buf (pb s);
                       bit_pos := bit_pos (pb s) |} in
  let s := set_slice_start s (put_bytes_output (pb s)) in
  set_pb s (put_bits_le (pb s) 24 0).

(** ** The emitted call sequence *)

(** The [put_bits_le] calls [encode_block] makes, observed by running it on
    an empty recording writer. *)
Definition emitted `{T : ExternTables} {W : Type} (s : SpeedHQEncContext W)
    (block : list Z) (n : Z) : PutLog :=
  pb (encode_block (set_pb s ([] : PutLog)) block n).

(** The calls of the AC loop of [encode_block] alone. *)
Definition ac_emitted `{T : ExternTables} {W : Type} (s : SpeedHQEncContext W)
    (block : list Z) (n : Z) : PutLog :=
  fst (for_range (Z.to_nat (rd (block_last_index s) n)) 1
         (ac_body (set_pb s ([] : PutLog)) block) ([], 0)).

(** ** Run/level coding as the format describes it *)

Definition int16 (x : Z) : Prop := -32768 <= x <= 32767.
Definition uint8 (x : Z) : Prop := 0 <= x <= 255.

Section RunLevel.
Context `{T : ExternTables}.

(** The bits for one nonzero coefficient [level] preceded by [run] zeros: its
    VLC with the sign bit above it, or the escape sequence. *)
Definition ac_coef_ops (run level : Z) : list (Z * Z) :=
  let alevel := Z.abs level in
  let sign := if level <? 0 then 1 else 0 in
  if alevel <=? rd speedhq_max_level run then
    let '(code, len) := rd2 ff_speedhq_vlc_table (rd speedhq_index_run run + alevel - 1) in
    [(len + 1, Z.lor code (Z.shiftl sign len))]
  else
    [(6, 32); (6, run); (12, level + 2048)].

(** Run/level pairs of the nonzero scan positions [nz], the previous nonzero
    position being [prev]. *)
Fixpoint runs_ops (lv : Z -> Z) (prev : Z) (nz : list Z) : list (Z * Z) :=
  match nz with
  | [] => []
  | i :: rest => ac_coef_ops (i - prev - 1) (lv i) ++ runs_ops lv i rest
  end.

(** The AC part of a block: the nonzero coefficients among scan positions
    [1..last_index], each with the run since the previous one. *)
Definition ac_ops (perm block : list Z) (last_index : Z) : list (Z * Z) :=
  let lv := fun i => rd block (rd perm i) in
  runs_ops lv 0 (List.filter (fun i => negb (lv i =? 0)) (zseq 1 (Z.to_nat last_index))).

End RunLevel.

(** The calls made for the blocks [order] of a macroblock, one block after
    the other, each in the context its predecessors leave. *)
Fixpoint mb_emitted `{T : ExternTables} {W : Type} `{BW : BitWriter W}
    (s : SpeedHQEncContext W) (block : list (list Z)) (order : list Z) : PutLog :=
  match order with
  | [] => []
  | i :: rest =>
      emitted s (rd_block block i) i ++
      mb_emitted (encode_block s (rd_block block i) i) block rest
  end.

(** Wire order of the blocks of one macroblock. *)
Definition mb_block_order (f : ChromaFormat) : list Z :=
  match f with
  | CHROMA_420 => [0; 1; 2; 3; 4; 5]
  | CHROMA_422 => [0; 1; 2; 3; 4; 5; 6; 7]
  | CHROMA_444 => [0; 1; 2; 3; 4; 5; 8; 9; 6; 7; 10; 11]
  end.

(** ** Concrete tables and inputs *)

(** DC code lengths of MPEG-1/2 (luminance and chrominance, categories
    0..11) and a small run/level code laid out like the SpeedHQ one: levels
    1..3 at run 0, level 1 at run 1, then the escape and end-of-block rows.
    [speedhq_index_run] holds the number of run/level rows where a run has
    none. *)
#[export] Instance sample_tables : ExternTables := {|
  ff_mpeg12_vlc_dc_lum_bits := [3; 2; 2; 3; 3; 4; 5; 6; 7; 8; 9; 9];
  ff_mpeg12_vlc_dc_chroma_bits := [2; 2; 2; 3; 4; 5; 6; 7; 8; 9; 10; 10];
  speedhq_max_level := 3 :: 1 :: replicate 63 0;
  speedhq_index_run := 0 :: 3 :: replicate 63 4;
  ff_speedhq_vlc_table := [(0x1, 2); (0x3, 3); (0xE, 4); (0x2, 3); (0x20, 6); (0x6, 4)]
|}.

(** The zig-zag scan of an 8x8 block. *)
Definition zigzag : list Z :=
  [ 0;  1;  8; 16;  9;  2;  3; 10; 17; 24; 32; 25; 18; 11;  4;  5;
   12; 19; 26; 33; 40; 48; 41; 34; 27; 20; 13;  6;  7; 14; 21; 28;
   35; 42; 49; 56; 57; 50; 43; 36; 29; 22; 15; 23; 30; 37; 44; 51;
   58; 59; 52; 45; 38; 31; 39; 46; 53; 60; 61; 54; 47; 55; 62; 63].

(** A 4:2:0 context at the start of a picture: 16x16 pixels, [qscale] 7,
    DC predictors at 128, every block with [last] as its last index. *)
Definition sample_ctx {W : Type} (p : W) (last : Z) : SpeedHQEncContext W :=
  mkCtx 16 16 AV_PIX_FMT_YUV420P 0 0 0 7 CHROMA_420 p [128; 128; 128]
        (replicate 12 last) zigzag 0 0 0.

(** The block whose only nonzero entries are [dc] at index 0 and [v] at
    index [j] (for [j] in 1..63). *)
Definition sample_block (dc : Z) (j : Z) (v : Z) : list Z :=
  wr (dc :: replicate 63 0) j v.

(** ** Invariants and measures of the framing *)

(** The byte writer keeps its cursor within the byte under construction,
    whose unused high bits are zero. *)
Definition wf_pb (s : PutBitContext) : Prop :=
  0 <= bit_pos s < 8 /\ 0 <= bit_buf s < 2 ^ bit_pos s.

(** The length field of the open slice lies within the bytes written. *)
Definition slice_open (s : SpeedHQEncContext PutBitContext) : Prop :=
  wf_pb (pb s) /\ 0 <= slice_start s /\
  slice_start s + 3 <= put_bytes_output (flush_put_bits_le (pb s)).

(** Number of payload bytes of the slice that [ff_speedhq_end_slice] closes
    in [s]: the bytes after the three bytes of its length field, up to the
    length field of the next slice. *)
Definition payload_bytes (s : SpeedHQEncContext PutBitContext) : Z :=
  slice_start (ff_speedhq_end_slice s) - (slice_start s + 3).

(** The slice-length field that [ff_speedhq_end_slice] fills in, as a reader
    of the output finds it. *)
Definition slice_len_field (s : SpeedHQEncContext PutBitContext) : Z :=
  AV_RL24 (buf (pb (ff_speedhq_end_slice s))) (slice_start s).

(** A picture of one macroblock of DC-only blocks, its first slice still
    open: header, then the six blocks of the macroblock. *)
Definition sample_picture : SpeedHQEncContext PutBitContext :=
  ff_speedhq_encode_mb
    (ff_speedhq_encode_picture_header (sample_ctx init_put_bits 0))
    (replicate 12 (sample_block 128 1 0)).

(** A 4:2:0 context of the given picture size, before initialisation. *)
Definition sample_dims (w h : Z) : SpeedHQEncContext PutBitContext :=
  mkCtx w h AV_PIX_FMT_YUV420P 0 0 0 7 CHROMA_420 init_put_bits [128; 128; 128]
        (replicate 12 0) zigzag 0 0 0.

(** [ff_speedhq_encode_init] returned an error code. *)
Definition init_fails {W : Type} (s : SpeedHQEncContext W) : Prop :=
  exists r s', ff_speedhq_encode_init s = Returned r s' /\ r < 0.

(** The code lengths of a DC table leave room for packing: with a prefix of
    at most 15 bits, prefix and tail of the categories up to 8 stay below
    [2^24], so that length and code fit the 8 and 24 bits of a unified
    entry. *)
Definition dc_lengths_fit (bits_tab : list Z) : Prop :=
  Forall (fun b => 0 <= b <= 15) bits_tab.

(** A 4:4:4 context with DC predictors at 128, and a macroblock whose block
    [i] has DC coefficient 128 and a single AC coefficient 1 at scan position
    [i + 1], so that the run it is coded with tells the blocks apart. *)
Definition sample_ctx_444 : SpeedHQEncContext PutLog :=
  mkCtx 16 16 AV_PIX_FMT_YUV444P 0 0 0 7 CHROMA_444 [] [128; 128; 128]
        (replicate 12 12) zigzag 0 0 0.

Definition sample_mb : list (list Z) :=
  map (fun i => sample_block 128 (rd zigzag (i + 1)) 1) (zseq 0 12).

(** ** Conditions on the external tables and on the calls *)

(** No table holds a negative code length. *)
Definition lengths_nonneg `{T : ExternTables} : Prop :=
  Forall (fun b => 0 <= b) ff_mpeg12_vlc_dc_lum_bits /\
  Forall (fun b => 0 <= b) ff_mpeg12_vlc_dc_chroma_bits /\
  Forall (fun r => 0 <= snd r) ff_speedhq_vlc_table.

(** The category prefixes of a DC table fit their lengths. *)
Definition dc_prefix_ok (bits_tab code_tab : list Z) : Prop :=
  forall k, 0 <= k <= 11 -> rd code_tab k < 2 ^ rd bits_tab k.

(** Every row of the AC table is a code of at most 16 bits that fits its
    length. *)
Definition vlc_rows_ok `{T : ExternTables} : Prop :=
  Forall (fun r => 0 <= fst r < 2 ^ snd r /\ 0 <= snd r <= 16) ff_speedhq_vlc_table.

(** A call [(n, value)] that [put_bits_le] accepts: at most 31 bits, and a
    value of at most [n] bits. *)
Definition op_ok (op : Z * Z) : Prop :=
  0 <= fst op <= 31 /\ 0 <= snd op < 2 ^ fst op.


(** The last Cb and the last Cr block of a macroblock in wire order. *)
Definition mb_last_chroma (f : ChromaFormat) : Z * Z :=
  match f with
  | CHROMA_420 => (4, 5)
  | CHROMA_422 => (6, 7)
  | CHROMA_444 => (10, 11)
  end.

(** The sample picture with its first slice closed, a second macroblock
    encoded and the second slice closed. *)
Definition sample_two_slices : SpeedHQEncContext PutBitContext :=
  ff_speedhq_end_slice
    (ff_speedhq_encode_mb (ff_speedhq_end_slice sample_picture)
       (replicate 12 (sample_block 100 1 1))).

(** Closed arithmetic facts about concrete states. *)
Ltac by_eval :=
  repeat split; vm_compute; first [reflexivity | discriminate | intro; discriminate].

(** * Properties *)

(** ** Arrays *)

Lemma rd_nth (l : list Z) (i : Z) :
  0 <= i -> rd l i = nth (Z.to_nat i) l 0.
Proof.
  intros Hi. unfold rd. destruct (0 <=? i) eqn:E; [reflexivity | lia].
Qed.

Lemma length_wr (l : list Z) (i v : Z) : length (wr l i v) = length l.
Proof.
  unfold wr. destruct (0 <=? i); [apply length_insert | reflexivity].
Qed.

Lemma rd_wr_same (l : list Z) (i v : Z) :
  0 <= i < Z.of_nat (length l) -> rd (wr l i v) i = v.
Proof.
  intros Hi. unfold rd, wr. destruct (0 <=? i) eqn:E; [|lia].
  rewrite nth_lookup, list_lookup_insert_eq by lia. reflexivity.
Qed.

Lemma rd_wr_other (l : list Z) (i j v : Z) :
  i <> j -> rd (wr l i v) j = rd l j.
Proof.
  intros Hne. unfold rd, wr.
  destruct (0 <=? j) eqn:Ej; [|reflexivity].
  destruct (0 <=? i) eqn:Ei; [|reflexivity].
  rewrite !nth_lookup, list_lookup_insert_ne by lia. reflexivity.
Qed.

Lemma rd_app_l (l l' : list Z) (i : Z) :
  i < Z.of_nat (length l) -> rd (l ++ l') i = rd l i.
Proof.
  intros Hi. unfold rd. destruct (0 <=? i) eqn:E; [|reflexivity].
  rewrite !nth_lookup, lookup_app_l by lia. reflexivity.
Qed.

Lemma rd_Forall (P : Z -> Prop) (l : list Z) (i : Z) :
  P 0 -> Forall P l -> P (rd l i).
Proof.
  intros H0 Hl. unfold rd. destruct (0 <=? i); [|exact H0].
  rewrite nth_lookup. destruct (l !! Z.to_nat i) as [x|] eqn:E; simpl; [|exact H0].
  eapply Forall_lookup_1; eauto.
Qed.

(** ** Loops *)

Lemma for_range_ext {A : Type} (f g : Z -> A -> A) (cnt : nat) (lo : Z) (a : A) :
  (forall i x, lo <= i < lo + Z.of_nat cnt -> f i x = g i x) ->
  for_range cnt lo f a = for_range cnt lo g a.
Proof.
  revert lo a. induction cnt as [|c IH]; intros lo a Hfg; simpl; [reflexivity|].
  rewrite (Hfg lo a) by lia. apply IH. intros i x Hi. apply Hfg. lia.
Qed.

Lemma for_range_fold {A : Type} (f : Z -> A -> A) (cnt : nat) (lo : Z) (a : A) :
  for_range cnt lo f a = fold_left (fun x i => f i x) (zseq lo cnt) a.
Proof.
  revert lo a. induction cnt as [|c IH]; intros lo a; simpl; [reflexivity|].
  apply IH.
Qed.

(** ** Writers *)

Section WriterFacts.
Context {W : Type} `{BW : BitWriter W}.

Lemma put_all_app (p : W) (a b : list (Z * Z)) :
  put_all p (a ++ b) = put_all (put_all p a) b.
Proof. unfold put_all. apply fold_left_app. Qed.

Lemma put_all_cons (p : W) (n v : Z) (ops : list (Z * Z)) :
  put_all p ((n, v) :: ops) = put_all (put_bits_le p n v) ops.
Proof. reflexivity. Qed.

End WriterFacts.

Lemma put_all_log (l ops : PutLog) : put_all l ops = l ++ ops.
Proof.
  revert l. induction ops as [|[n v] ops IH]; intros l.
  - simpl. symmetry. apply app_nil_r.
  - rewrite put_all_cons, IH. simpl. rewrite <- app_assoc. reflexivity.
Qed.

Lemma wf_init_put_bits : wf_pb init_put_bits.
Proof. unfold wf_pb; simpl; lia. Qed.

Lemma wf_put_bits_le (s : PutBitContext) (n v : Z) :
  0 <= n -> wf_pb s -> wf_pb (put_bits_le s n v).
Proof.
  intros Hn [Hp Hb]. unfold wf_pb; simpl.
  set (acc := bit_buf s + v mod 2 ^ n * 2 ^ bit_pos s).
  set (tot := bit_pos s + n).
  assert (Htot : 0 <= tot) by (unfold tot; lia).
  assert (Hacc : 0 <= acc < 2 ^ tot).
  { unfold acc, tot. rewrite Z.pow_add_r by lia.
    assert (0 <= v mod 2 ^ n < 2 ^ n) by (apply Z.mod_pos_bound; lia).
    assert (0 < 2 ^ bit_pos s) by lia. nia. }
  assert (Hm : 0 <= tot mod 8 < 8) by (apply Z.mod_pos_bound; lia).
  assert (Hd : 0 <= tot / 8) by (apply Z.div_pos; lia).
  split; [exact Hm|].
  assert (Hpos : 0 < 2 ^ (8 * (tot / 8))) by (apply Z.pow_pos_nonneg; lia).
  split; [apply Z.div_pos; lia|].
  apply Z.div_lt_upper_bound; [exact Hpos|].
  rewrite <- Z.pow_add_r by lia.
  replace (8 * (tot / 8) + tot mod 8) with tot by (pose proof (Z.div_mod tot 8); lia).
  lia.
Qed.

Lemma wf_flush_put_bits_le (s : PutBitContext) :
  wf_pb s -> wf_pb (flush_put_bits_le s) /\ bit_pos (flush_put_bits_le s) = 0
             /\ bit_buf (flush_put_bits_le s) = 0.
Proof.
  intros [Hp Hb]. unfold flush_put_bits_le, wf_pb.
  destruct (0 <? bit_pos s) eqn:E; simpl; [lia|].
  assert (bit_pos s = 0) by lia.
  rewrite H in *. simpl in *. lia.
Qed.

(** ** Slice framing *)

Lemma put_zero_aligned (p : PutBitContext) :
  bit_pos p = 0 -> bit_buf p = 0 ->
  put_bits_le p 24 0 = {| buf := buf p ++ [0; 0; 0]; bit_buf := 0; bit_pos := 0 |}.
Proof.
  intros Hp Hb. simpl. unfold put_bits_le_bytes. rewrite Hp, Hb. reflexivity.
Qed.

Lemma flush_buf (p : PutBitContext) :
  buf (flush_put_bits_le p) =
  buf p ++ (if 0 <? bit_pos p then [bit_buf p] else []).
Proof.
  unfold flush_put_bits_le. destruct (0 <? bit_pos p); simpl;
    [reflexivity | symmetry; apply app_nil_r].
Qed.

Lemma length_AV_WL24 (b : list Z) (off v : Z) : length (AV_WL24 b off v) = length b.
Proof. unfold AV_WL24. rewrite !length_wr. reflexivity. Qed.

Lemma AV_RL24_WL24 (b : list Z) (off v : Z) :
  0 <= off -> off + 3 <= Z.of_nat (length b) -> 0 <= v < 2 ^ 24 ->
  AV_RL24 (AV_WL24 b off v) off = v.
Proof.
  intros Hoff Hlen Hv. unfold AV_RL24, AV_WL24.
  rewrite (rd_wr_same _ (off + 2)) by (rewrite !length_wr; lia).
  rewrite (rd_wr_other _ (off + 2) (off + 1)) by lia.
  rewrite (rd_wr_same _ (off + 1)) by (rewrite !length_wr; lia).
  rewrite (rd_wr_other _ (off + 2) off) by lia.
  rewrite (rd_wr_other _ (off + 1) off) by lia.
  rewrite rd_wr_same by lia.
  change (2 ^ 24) with 16777216 in Hv.
  pose proof (Z.div_mod v 256). pose proof (Z.div_mod (v / 256) 256).
  pose proof (Z.mod_pos_bound v 256). pose proof (Z.mod_pos_bound (v / 256) 256).
  replace (v / 65536) with (v / 256 / 256) by (rewrite Z.div_div by lia; reflexivity).
  assert (v / 256 / 256 < 256) by (apply Z.div_lt_upper_bound; [lia|];
    apply Z.div_lt_upper_bound; lia).
  assert (0 <= v / 256 / 256) by (apply Z.div_pos; [apply Z.div_pos|]; lia).
  rewrite (Z.mod_small (v / 256 / 256)) by lia. lia.
Qed.

(** What [ff_speedhq_end_slice] leaves behind, field by field. *)
Lemma end_slice_state (s : SpeedHQEncContext PutBitContext) :
  wf_pb (pb s) ->
  let off := put_bytes_output (flush_put_bits_le (pb s)) in
  slice_start (ff_speedhq_end_slice s) = off /\
  pb (ff_speedhq_end_slice s) =
    {| buf := AV_WL24 (buf (flush_put_bits_le (pb s))) (slice_start s)
                      (off - slice_start s) ++ [0; 0; 0];
       bit_buf := 0; bit_pos := 0 |}.
Proof.
  intros Hwf off.
  destruct (wf_flush_put_bits_le _ Hwf) as (_ & Hp & Hb).
  unfold ff_speedhq_end_slice. cbn [set_pb set_slice_start pb slice_start].
  split.
  - unfold put_bytes_output. cbn [buf]. rewrite length_AV_WL24. reflexivity.
  - rewrite put_zero_aligned by (cbn [bit_pos bit_buf]; assumption).
    reflexivity.
Qed.

Lemma slice_open_sample_picture : slice_open sample_picture.
Proof. unfold slice_open, wf_pb. by_eval. Qed.

(** C1, as stated, fails: in the picture of one macroblock the first slice has
    5 payload bytes after its length field, and the field closed by
    [ff_speedhq_end_slice] holds 8, the 3 bytes of the field included. *)
Lemma end_slice_field_counts_itself :
  payload_bytes sample_picture = 5 /\
  slice_len_field sample_picture = 8 /\
  slice_len_field sample_picture <> payload_bytes sample_picture.
Proof. by_eval. Qed.

(** C1, amended: the 24-bit little-endian value written back at the recorded
    [slice_start] equals the number of payload bytes following the length
    field up to the next length field plus 3, the bytes of the length field
    itself being counted (for a slice shorter than [2^24] bytes). *)
Theorem end_slice_length_field (s : SpeedHQEncContext PutBitContext) :
  slice_open s ->
  put_bytes_output (flush_put_bits_le (pb s)) - slice_start s < 2 ^ 24 ->
  slice_len_field s = payload_bytes s + 3.
Proof.
  intros (Hwf & Hss & Hlen) Hmax.
  unfold slice_len_field, payload_bytes.
  destruct (end_slice_state s Hwf) as [-> ->]. cbn [buf].
  unfold AV_RL24.
  rewrite !rd_app_l by (rewrite length_AV_WL24; unfold put_bytes_output in Hlen; lia).
  fold (AV_RL24 (AV_WL24 (buf (flush_put_bits_le (pb s))) (slice_start s)
     (put_bytes_output (flush_put_bits_le (pb s)) - slice_start s)) (slice_start s)).
  rewrite AV_RL24_WL24; unfold put_bytes_output in *; lia.
Qed.

Lemma end_slice_length_field_witness :
  slice_len_field sample_picture = payload_bytes sample_picture + 3.
Proof.
  apply end_slice_length_field.
  - exact slice_open_sample_picture.
  - by_eval.
Defined.

(** C2: [ff_speedhq_end_slice] pads the writer with zero bits to a byte
    boundary, takes [slice_len] as the byte offset then reached minus
    [slice_start], stores it little-endian in the three bytes at
    [slice_start] (no other byte written so far changes), makes that byte
    offset the new [slice_start] and appends three zero bytes as the
    placeholder of the next slice. *)
Theorem end_slice_steps (s : SpeedHQEncContext PutBitContext) :
  slice_open s ->
  let flushed := flush_put_bits_le (pb s) in
  let off := put_bytes_output flushed in
  let slice_len := off - slice_start s in
  let out := buf (pb (ff_speedhq_end_slice s)) in
  buf flushed = buf (pb s) ++ (if 0 <? bit_pos (pb s) then [bit_buf (pb s)] else []) /\
  bit_pos flushed = 0 /\
  out = AV_WL24 (buf flushed) (slice_start s) slice_len ++ [0; 0; 0] /\
  rd out (slice_start s) = slice_len mod 256 /\
  rd out (slice_start s + 1) = slice_len / 256 mod 256 /\
  rd out (slice_start s + 2) = slice_len / 65536 mod 256 /\
  (forall i, i < off -> ~ slice_start s <= i < slice_start s + 3 ->
             rd out i = rd (buf flushed) i) /\
  slice_start (ff_speedhq_end_slice s) = off /\
  put_bytes_output (pb (ff_speedhq_end_slice s)) = off + 3 /\
  bit_pos (pb (ff_speedhq_end_slice s)) = 0.
Proof.
  intros (Hwf & Hss & Hlen) flushed off slice_len out.
  destruct (wf_flush_put_bits_le _ Hwf) as (_ & Hp & _).
  destruct (end_slice_state s Hwf) as [Hs Hpb].
  fold flushed in Hlen, Hp, Hs, Hpb. fold off in Hs, Hpb, Hlen. fold slice_len in Hpb.
  assert (Hout : out = AV_WL24 (buf flushed) (slice_start s) slice_len ++ [0; 0; 0])
    by (unfold out; rewrite Hpb; reflexivity).
  assert (Hoff : off = Z.of_nat (length (buf flushed))) by reflexivity.
  repeat split.
  - apply flush_buf.
  - exact Hp.
  - exact Hout.
  - rewrite Hout, rd_app_l by (rewrite length_AV_WL24; lia). unfold AV_WL24.
    rewrite !rd_wr_other by lia. apply rd_wr_same. lia.
  - rewrite Hout, rd_app_l by (rewrite length_AV_WL24; lia). unfold AV_WL24.
    rewrite rd_wr_other by lia. apply rd_wr_same. rewrite length_wr. lia.
  - rewrite Hout, rd_app_l by (rewrite length_AV_WL24; lia). unfold AV_WL24.
    apply rd_wr_same. rewrite !length_wr. lia.
  - intros i Hi Hni. rewrite Hout, rd_app_l by (rewrite length_AV_WL24; lia).
    unfold AV_WL24. rewrite !rd_wr_other by lia. reflexivity.
  - exact Hs.
  - rewrite Hpb. unfold put_bytes_output. cbn [buf].
    rewrite length_app, length_AV_WL24. simpl length. lia.
  - rewrite Hpb. reflexivity.
Qed.

Lemma end_slice_steps_witness :
  slice_start (ff_speedhq_end_slice sample_picture) = 12 /\
  buf (pb (ff_speedhq_end_slice sample_picture)) =
    [86; 4; 0; 0; 8; 0; 0; 177; 88; 44; 134; 97; 0; 0; 0].
Proof.
  pose proof (end_slice_steps sample_picture slice_open_sample_picture) as H.
  cbv zeta in H. destruct H as (_ & _ & Hout & _ & _ & _ & _ & Hs & _).
  split; [rewrite Hs | rewrite Hout]; reflexivity.
Defined.

(** ** Picture header *)

Lemma put_bits_le_aligned (p : PutBitContext) (k : nat) (v : Z) :
  bit_pos p = 0 -> bit_buf p = 0 ->
  put_bits_le p (8 * Z.of_nat k) v =
  {| buf := buf p ++ le_bytes k (v mod 2 ^ (8 * Z.of_nat k));
     bit_buf := 0; bit_pos := 0 |}.
Proof.
  intros Hp Hb. simpl. unfold put_bits_le_bytes. rewrite Hp, Hb.
  rewrite Z.add_0_l, Z.pow_0_r, Z.mul_1_r, Z.add_0_l.
  replace (8 * Z.of_nat k / 8) with (Z.of_nat k)
    by (rewrite Z.mul_comm, Z.div_mul by lia; reflexivity).
  rewrite Nat2Z.id. f_equal.
  - apply Z.div_small. apply Z.mod_pos_bound. apply Z.pow_pos_nonneg; lia.
  - rewrite Z.mul_comm. apply Z.mod_mul. lia.
Qed.

(** C7: [ff_speedhq_encode_picture_header] makes exactly three calls to the
    bit writer: 8 bits of value [100 - 2*qscale], 24 bits of value 4 and 24
    bits of value 0, and sets [slice_start] to 4.  At the start of the
    output these are the seven bytes [(100 - 2*qscale) mod 256, 4, 0, 0, 0,
    0, 0], so with [qscale = 7] the first byte of the picture is 86. *)
Theorem picture_header_emits {W : Type} `{BW : BitWriter W}
    (s : SpeedHQEncContext W) (s0 : SpeedHQEncContext PutBitContext) :
  pb (ff_speedhq_encode_picture_header s) =
    put_all (pb s) [(8, 100 - 2 * qscale s); (24, 4); (24, 0)] /\
  pb (ff_speedhq_encode_picture_header (set_pb s ([] : PutLog))) =
    [(8, 100 - 2 * qscale s); (24, 4); (24, 0)] /\
  slice_start (ff_speedhq_encode_picture_header s) = 4 /\
  buf (pb (ff_speedhq_encode_picture_header (set_pb s0 init_put_bits))) =
    [(100 - 2 * qscale s0) mod 256; 4; 0; 0; 0; 0; 0] /\
  (qscale s0 = 7 ->
   rd (buf (pb (ff_speedhq_encode_picture_header (set_pb s0 init_put_bits)))) 0 = 86).
Proof.
  assert (Hbytes : buf (pb (ff_speedhq_encode_picture_header (set_pb s0 init_put_bits))) =
                   [(100 - 2 * qscale s0) mod 256; 4; 0; 0; 0; 0; 0]).
  { unfold ff_speedhq_encode_picture_header.
    cbn [set_pb set_slice_start pb qscale].
    rewrite (put_bits_le_aligned init_put_bits 1) by reflexivity.
    rewrite (put_bits_le_aligned _ 3) by reflexivity.
    rewrite (put_bits_le_aligned _ 3) by reflexivity.
    cbn [buf app le_bytes]. change (2 ^ (8 * Z.of_nat 1)) with 256.
    rewrite Z.mod_mod by lia.
    replace (qscale s0 * 2) with (2 * qscale s0) by lia. reflexivity. }
  unfold ff_speedhq_encode_picture_header at 1 2 3.
  cbn [set_pb set_slice_start pb qscale slice_start].
  replace (qscale s * 2) with (2 * qscale s) by lia.
  repeat split; [exact Hbytes|].
  intros Hq. rewrite Hbytes, Hq. reflexivity.
Qed.

Lemma picture_header_emits_witness :
  rd (buf (pb (ff_speedhq_encode_picture_header
                 (set_pb (sample_ctx init_put_bits 0) init_put_bits)))) 0 = 86.
Proof.
  apply (picture_header_emits (sample_ctx init_put_bits 0) (sample_ctx init_put_bits 0)).
  reflexivity.
Defined.

(** ** Initialisation *)

(** C8, as stated, fails: a picture 8 pixels wide is refused with
    [AVERROR_PATCHWELCOME], which is not the invalid-argument code. *)
Lemma init_width_error_is_patchwelcome :
  ~ (16 | 8) /\
  ff_speedhq_encode_init (sample_dims 8 8) =
    Returned AVERROR_PATCHWELCOME (sample_dims 8 8) /\
  AVERROR_PATCHWELCOME <> AVERROR EINVAL.
Proof.
  split; [|by_eval].
  intros [q Hq]. lia.
Qed.

(** C8, amended: for the three pixel formats of the encoder,
    [ff_speedhq_encode_init] fails exactly when the width is not a multiple
    of 16 or either dimension exceeds 65500.  It returns the
    invalid-argument code when a dimension exceeds 65500 and
    [AVERROR_PATCHWELCOME] when both are within 65500 and the width is not a
    multiple of 16, leaving the context as it was; for all other inputs it
    returns 0, having set the coefficient range to [-2048, 2047]. *)
Theorem init_failure_cases {W : Type} (s : SpeedHQEncContext W) :
  pix_fmt s <> AV_PIX_FMT_OTHER ->
  let too_large := 65500 < width s \/ 65500 < height s in
  (init_fails s <-> (~ (16 | width s) \/ too_large)) /\
  (too_large -> ff_speedhq_encode_init s = Returned (AVERROR EINVAL) s) /\
  (~ too_large -> ~ (16 | width s) ->
   ff_speedhq_encode_init s = Returned AVERROR_PATCHWELCOME s) /\
  (~ too_large -> (16 | width s) ->
   exists s', ff_speedhq_encode_init s = Returned 0 s' /\
              min_qcoeff s' = -2048 /\ max_qcoeff s' = 2047) /\
  AVERROR_PATCHWELCOME <> AVERROR EINVAL.
Proof.
  intros Hfmt too_large.
  assert (Hlarge : too_large -> ff_speedhq_encode_init s = Returned (AVERROR EINVAL) s).
  { intros Hl. unfold ff_speedhq_encode_init.
    destruct (65500 <? width s) eqn:Ew; [reflexivity|].
    destruct (65500 <? height s) eqn:Eh; [reflexivity|].
    unfold too_large in Hl. lia. }
  assert (Hrem : Z.rem (width s) 16 = 0 <-> (16 | width s))
    by (apply Z.rem_divide; lia).
  assert (Hwidth : ~ too_large -> ~ (16 | width s) ->
                   ff_speedhq_encode_init s = Returned AVERROR_PATCHWELCOME s).
  { intros Hl Hw. unfold ff_speedhq_encode_init.
    destruct (65500 <? width s) eqn:Ew; [exfalso; apply Hl; left; lia|].
    destruct (65500 <? height s) eqn:Eh; [exfalso; apply Hl; right; lia|].
    cbn [orb]. destruct (Z.rem (width s) 16 =? 0) eqn:Er; [|reflexivity].
    exfalso. apply Hw, Hrem. lia. }
  assert (Hok : ~ too_large -> (16 | width s) ->
          exists s', ff_speedhq_encode_init s = Returned 0 s' /\
                     min_qcoeff s' = -2048 /\ max_qcoeff s' = 2047).
  { intros Hl Hw. unfold ff_speedhq_encode_init.
    destruct (65500 <? width s) eqn:Ew; [exfalso; apply Hl; left; lia|].
    destruct (65500 <? height s) eqn:Eh; [exfalso; apply Hl; right; lia|].
    cbn [orb]. apply Hrem in Hw. rewrite Hw. cbn [Z.eqb negb].
    destruct (pix_fmt s); [eexists; repeat split ..| congruence]. }
  assert (Hne : AVERROR_PATCHWELCOME <> AVERROR EINVAL) by (vm_compute; discriminate).
  repeat split; try assumption.
  - intros (r & s' & Hr & Hneg).
    destruct (Z_lt_dec 65500 (width s)); [right; left; assumption|].
    destruct (Z_lt_dec 65500 (height s)); [right; right; assumption|].
    destruct (Z.eq_dec (Z.rem (width s) 16) 0) as [Hd|Hd];
      [apply Hrem in Hd | left; intros Hd'; apply Hd, Hrem, Hd'].
    exfalso. destruct Hok as (s'' & Hs'' & _); [unfold too_large; lia | exact Hd |].
    rewrite Hs'' in Hr. injection Hr as <- _. lia.
  - intros [Hw | Hl].
    + destruct (Z_lt_dec 65500 (width s));
        [exists (AVERROR EINVAL), s; split; [apply Hlarge; left; assumption | vm_compute; reflexivity]|].
      destruct (Z_lt_dec 65500 (height s));
        [exists (AVERROR EINVAL), s; split; [apply Hlarge; right; assumption | vm_compute; reflexivity]|].
      exists AVERROR_PATCHWELCOME, s. split; [|vm_compute; reflexivity].
      apply Hwidth; [unfold too_large; lia | exact Hw].
    + exists (AVERROR EINVAL), s. split; [apply Hlarge; exact Hl | vm_compute; reflexivity].
Qed.

Lemma init_failure_cases_witness :
  ff_speedhq_encode_init (sample_dims 65504 16) =
    Returned (AVERROR EINVAL) (sample_dims 65504 16).
Proof.
  apply (init_failure_cases (sample_dims 65504 16)).
  - discriminate.
  - left. reflexivity.
Defined.

(** ** The unified DC tables *)

Section DcTables.
Context `{T : ExternTables}.

(** The loop of [speedhq_init_static_data] fills slot [k + 255] with the
    entry of [k] and leaves the slots outside its range alone. *)
Lemma init_loop_slots (f g : Z -> Z) (cnt : nat) (lo : Z) (tabs : list Z * list Z) :
  let body := fun i (t : list Z * list Z) =>
                (wr (fst t) (i + 255) (f i), wr (snd t) (i + 255) (g i)) in
  let res := for_range cnt lo body tabs in
  length (fst res) = length (fst tabs) /\
  length (snd res) = length (snd tabs) /\
  (forall k, ~ lo <= k < lo + Z.of_nat cnt ->
     rd (fst res) (k + 255) = rd (fst tabs) (k + 255) /\
     rd (snd res) (k + 255) = rd (snd tabs) (k + 255)) /\
  (forall k, lo <= k < lo + Z.of_nat cnt ->
     0 <= k + 255 < Z.of_nat (length (fst tabs)) ->
     0 <= k + 255 < Z.of_nat (length (snd tabs)) ->
     rd (fst res) (k + 255) = f k /\ rd (snd res) (k + 255) = g k).
Proof.
  intros body. revert lo tabs.
  induction cnt as [|c IH]; intros lo tabs; cbn [for_range].
  - repeat split; try reflexivity; lia.
  - specialize (IH (lo + 1) (body lo tabs)).
    destruct IH as (IHl1 & IHl2 & IHout & IHin).
    assert (Hb1 : length (fst (body lo tabs)) = length (fst tabs))
      by (unfold body; cbn [fst]; apply length_wr).
    assert (Hb2 : length (snd (body lo tabs)) = length (snd tabs))
      by (unfold body; cbn [snd]; apply length_wr).
    split; [congruence|]. split; [congruence|]. split.
    + intros k Hk. destruct (IHout k) as [E1 E2]; [lia|].
      rewrite E1, E2. unfold body; cbn [fst snd].
      rewrite !rd_wr_other by lia. split; reflexivity.
    + intros k Hk H1 H2. destruct (Z.eq_dec k lo) as [->|Hne].
      * destruct (IHout lo) as [E1 E2]; [lia|]. rewrite E1, E2.
        unfold body; cbn [fst snd]. rewrite !rd_wr_same by lia.
        split; reflexivity.
      * apply IHin; [lia | rewrite Hb1; exact H1 | rewrite Hb2; exact H2].
Qed.

Lemma dc_uni_lookup (d : Z) :
  -255 <= d <= 255 ->
  rd speedhq_lum_dc_uni (d + 255) =
    dc_uni_entry ff_mpeg12_vlc_dc_lum_bits mpeg12_vlc_dc_lum_code_reversed d /\
  rd speedhq_chr_dc_uni (d + 255) =
    dc_uni_entry ff_mpeg12_vlc_dc_chroma_bits mpeg12_vlc_dc_chroma_code_reversed d.
Proof.
  intros Hd. unfold speedhq_lum_dc_uni, speedhq_chr_dc_uni, speedhq_init_static_data.
  pose proof (init_loop_slots
    (dc_uni_entry ff_mpeg12_vlc_dc_lum_bits mpeg12_vlc_dc_lum_code_reversed)
    (dc_uni_entry ff_mpeg12_vlc_dc_chroma_bits mpeg12_vlc_dc_chroma_code_reversed)
    511 (-255) (replicate 512 0, replicate 512 0)) as H.
  cbv zeta in H. destruct H as (_ & _ & _ & Hin).
  apply Hin; cbn [fst snd]; rewrite ?length_replicate; lia.
Qed.

(** The category of a difference of magnitude at most 255 is at most 8, and
    both logarithms compute it. *)
Lemma dc_category_small (d : Z) :
  -255 <= d <= 255 ->
  0 <= av_log2 (2 * Z.abs d) <= 8 /\
  (if d <? 0 then (av_log2_16bit (-2 * d), d - 1) else (av_log2_16bit (2 * d), d)) =
    (av_log2 (2 * Z.abs d), if d <? 0 then d - 1 else d).
Proof.
  intros Hd. unfold av_log2, av_log2_16bit. split.
  - split; [apply Z.log2_nonneg|].
    assert (Z.log2 (Z.max (2 * Z.abs d) 1) < 9); [|lia].
    apply Z.log2_lt_pow2; [lia|]. change (2 ^ 9) with 512. lia.
  - destruct (Z.eq_dec d 0) as [->|Hne]; [reflexivity|].
    rewrite Z.max_l by lia.
    destruct (d <? 0) eqn:E; do 2 f_equal; lia.
Qed.

Lemma av_zero_extend_bound (a p : Z) :
  0 <= p -> 0 <= av_zero_extend a p < 2 ^ p.
Proof.
  intros Hp. unfold av_zero_extend.
  replace (2 ^ p - 1) with (Z.ones p) by (rewrite Z.ones_equiv; lia).
  rewrite Z.land_ones by lia. apply Z.mod_pos_bound. apply Z.pow_pos_nonneg; lia.
Qed.

(** A length below 256 and a code below [2^24] are read back from their
    packed entry. *)
Lemma unpack_entry (bits code : Z) :
  0 <= bits < 256 -> 0 <= code < 2 ^ 24 ->
  let e := (bits + Z.shiftl code 8) mod 2 ^ 32 in
  Z.land e 0xFF = bits /\ Z.shiftr e 8 = code.
Proof.
  intros Hb Hc e. unfold e. rewrite Z.shiftl_mul_pow2 by lia.
  change (2 ^ 24) with 16777216 in Hc. change (2 ^ 8) with 256.
  rewrite Z.mod_small by (change (2 ^ 32) with 4294967296; lia).
  change 0xFF with (Z.ones 8). rewrite Z.land_ones by lia.
  rewrite Z.shiftr_div_pow2 by lia. change (2 ^ 8) with 256.
  split.
  - rewrite Z.mod_add by lia. apply Z.mod_small. lia.
  - rewrite Z.div_add by lia. rewrite (Z.div_small bits) by lia. lia.
Qed.

Lemma code_reversed_bounds :
  Forall (fun c => 0 <= c < 1024) mpeg12_vlc_dc_lum_code_reversed /\
  Forall (fun c => 0 <= c < 1024) mpeg12_vlc_dc_chroma_code_reversed.
Proof. split; repeat constructor; lia. Qed.

(** Length and code of a unified entry, unpacked, are those computed from the
    category tables. *)
Lemma dc_uni_entry_unpack (bits_tab code_tab : list Z) (d : Z) :
  dc_lengths_fit bits_tab -> Forall (fun c => 0 <= c < 1024) code_tab ->
  -255 <= d <= 255 ->
  let index := av_log2 (2 * Z.abs d) in
  let d' := if d <? 0 then d - 1 else d in
  Z.land (dc_uni_entry bits_tab code_tab d) 0xFF = rd bits_tab index + index /\
  Z.shiftr (dc_uni_entry bits_tab code_tab d) 8 =
    rd code_tab index + Z.shiftl (av_zero_extend d' index) (rd bits_tab index).
Proof.
  intros Hbits Hcode Hd index d'.
  destruct (dc_category_small d Hd) as [Hidx _]. fold index in Hidx.
  assert (Hb : 0 <= rd bits_tab index <= 15)
    by (apply (rd_Forall (fun b => 0 <= b <= 15)); [lia | exact Hbits]).
  assert (Hc : 0 <= rd code_tab index < 1024)
    by (apply (rd_Forall (fun c => 0 <= c < 1024)); [lia | exact Hcode]).
  pose proof (av_zero_extend_bound d' index (proj1 Hidx)) as Hz.
  unfold dc_uni_entry. fold index. fold d'.
  apply unpack_entry; [lia|].
  rewrite Z.shiftl_mul_pow2 by lia.
  assert (2 ^ index <= 2 ^ 8) by (apply Z.pow_le_mono_r; lia).
  assert (0 < 2 ^ rd bits_tab index <= 2 ^ 15)
    by (split; [apply Z.pow_pos_nonneg; lia | apply Z.pow_le_mono_r; lia]).
  change (2 ^ 8) with 256 in *. change (2 ^ 15) with 32768 in *.
  change (2 ^ 24) with 16777216. nia.
Qed.

End DcTables.

(** C6: for every DC difference [d] with [|d| <= 255] and either component
    class, [encode_dc] takes the table arm, and the packed entry it emits
    from [speedhq_lum_dc_uni] or [speedhq_chr_dc_uni] (low 8 bits the length,
    the bits above the code) is the call the slow arm computes: category
    [log2 (2*|d|)], [d] decremented when negative, the reversed category
    prefix plus the zero-extended tail shifted above the prefix. *)
Theorem dc_fast_path_agrees {W : Type} `{BW : BitWriter W} `{T : ExternTables}
    (p : W) (d component : Z) :
  dc_lengths_fit ff_mpeg12_vlc_dc_lum_bits ->
  dc_lengths_fit ff_mpeg12_vlc_dc_chroma_bits ->
  -255 <= d <= 255 ->
  encode_dc p d component = encode_dc_fast p d component /\
  encode_dc_fast p d component = encode_dc_slow p d component.
Proof.
  intros Hlum Hchr Hd. split.
  - unfold encode_dc. rewrite Z.mod_small by (change (2 ^ 32) with 4294967296; lia).
    destruct (511 <=? d + 255) eqn:E; [lia | reflexivity].
  - unfold encode_dc_fast, encode_dc_slow.
    destruct (dc_uni_lookup d Hd) as [-> ->].
    destruct (dc_category_small d Hd) as [_ ->].
    destruct code_reversed_bounds as [Clum Cchr].
    destruct (dc_uni_entry_unpack _ _ d Hlum Clum Hd) as [-> ->].
    destruct (dc_uni_entry_unpack _ _ d Hchr Cchr Hd) as [-> ->].
    reflexivity.
Qed.

Lemma dc_fast_path_agrees_witness :
  encode_dc ([] : PutLog) (-3) 0 = encode_dc_fast [] (-3) 0 /\
  encode_dc_fast ([] : PutLog) (-3) 0 = encode_dc_slow [] (-3) 0.
Proof.
  apply (dc_fast_path_agrees (T := sample_tables)).
  - unfold dc_lengths_fit. simpl. repeat constructor; lia.
  - unfold dc_lengths_fit. simpl. repeat constructor; lia.
  - lia.
Defined.

(** ** Block coding *)

Lemma for_range_sim {A B : Type} (R : A -> B -> Prop) (f : Z -> A -> A)
    (g : Z -> B -> B) (cnt : nat) (lo : Z) (a : A) (b : B) :
  R a b -> (forall i x y, R x y -> R (f i x) (g i y)) ->
  R (for_range cnt lo f a) (for_range cnt lo g b).
Proof.
  intros Hab Hstep. revert lo a b Hab.
  induction cnt as [|c IH]; intros lo a b Hab; simpl; [exact Hab|].
  apply IH. apply Hstep. exact Hab.
Qed.

Lemma MASK_ABS_spec (level : Z) :
  - 2 ^ 31 <= level < 2 ^ 31 ->
  MASK_ABS level = (if level <? 0 then -1 else 0, Z.abs level).
Proof.
  intros Hl. unfold MASK_ABS. rewrite Z.shiftr_div_pow2 by lia.
  destruct (level <? 0) eqn:E.
  - replace (level / 2 ^ 31) with (-1)
      by (apply (Z.div_unique level (2 ^ 31) (-1) (level + 2 ^ 31)); lia).
    rewrite Z.lxor_m1_r. unfold Z.lnot. f_equal. lia.
  - rewrite Z.div_small by lia. rewrite Z.lxor_0_r. f_equal. lia.
Qed.

Section BlockFacts.
Context {W : Type} `{BW : BitWriter W} `{T : ExternTables}.

(** The writer [encode_dc] returns is its argument followed by the calls
    observed on a recording writer. *)
Lemma encode_dc_log (p : W) (d c : Z) :
  encode_dc p d c = put_all p (encode_dc ([] : PutLog) d c).
Proof.
  unfold encode_dc, encode_dc_slow, encode_dc_fast.
  destruct (511 <=? (d + 255) mod 2 ^ 32); destruct (d <? 0); destruct (c =? 0);
    reflexivity.
Qed.

(** One turn of the AC loop in terms of the run/level description. *)
Lemma ac_body_ops (s : SpeedHQEncContext W) (block : list Z) (i : Z) (p : W) (lnz : Z) :
  int16 (rd block (rd (permutated s) i)) ->
  ac_body s block i (p, lnz) =
    let level := rd block (rd (permutated s) i) in
    if level =? 0 then (p, lnz)
    else (put_all p (ac_coef_ops (i - lnz - 1) level), i).
Proof.
  intros Hl. unfold ac_body. cbv zeta.
  set (level := rd block (rd (permutated s) i)) in *.
  destruct (level =? 0) eqn:E; [reflexivity|]. cbn [negb].
  rewrite MASK_ABS_spec by (unfold int16 in Hl; lia).
  unfold ac_coef_ops.
  replace (Z.land (if level <? 0 then -1 else 0) 1) with (if level <? 0 then 1 else 0)
    by (destruct (level <? 0); reflexivity).
  destruct (Z.abs level <=? rd speedhq_max_level (i - lnz - 1)); [|reflexivity].
  destruct (rd2 ff_speedhq_vlc_table (rd speedhq_index_run (i - lnz - 1) + Z.abs level - 1))
    as [code len]; reflexivity.
Qed.

(** The AC loop emits the run/level pairs of the nonzero positions it
    visits. *)
Lemma ac_loop_ops (s : SpeedHQEncContext W) (block : list Z) (cnt : nat) (lo : Z)
    (p : W) (lnz : Z) :
  Forall int16 block ->
  let lv := fun i => rd block (rd (permutated s) i) in
  fst (for_range cnt lo (ac_body s block) (p, lnz)) =
    put_all p (runs_ops lv lnz (List.filter (fun i => negb (lv i =? 0)) (zseq lo cnt))).
Proof.
  intros Hblock lv. revert lo p lnz.
  induction cnt as [|c IH]; intros lo p lnz; cbn [for_range zseq List.filter];
    [reflexivity|].
  rewrite ac_body_ops by (apply (rd_Forall int16); [unfold int16; lia | exact Hblock]).
  cbv zeta. fold (lv lo). destruct (lv lo =? 0); cbn [negb].
  - apply IH.
  - rewrite IH. cbn [runs_ops]. rewrite put_all_app. reflexivity.
Qed.

(** The writer a block leaves: the DC call, the run/level pairs, the
    end-of-block code. *)
Lemma encode_block_pb (s : SpeedHQEncContext W) (block : list Z) (n : Z) :
  Forall int16 block ->
  let component := if n <=? 3 then 0 else Z.land n 1 + 1 in
  pb (encode_block s block n) =
    put_all (encode_dc (pb s) (rd (last_dc s) component - rd block 0) component)
            (ac_ops (permutated s) block (rd (block_last_index s) n) ++ [(4, 6)]).
Proof.
  intros Hblock component. unfold encode_block. fold component.
  cbn [set_pb set_last_dc pb last_dc block_last_index permutated].
  rewrite put_all_app. cbn [put_all fold_left fst snd]. f_equal.
  rewrite ac_loop_ops by exact Hblock. reflexivity.
Qed.

Lemma encode_block_last_dc (s : SpeedHQEncContext W) (block : list Z) (n : Z) :
  last_dc (encode_block s block n) =
    wr (last_dc s) (if n <=? 3 then 0 else Z.land n 1 + 1) (rd block 0).
Proof. reflexivity. Qed.

Lemma encode_block_frame (s : SpeedHQEncContext W) (block : list Z) (n : Z) :
  chroma_format (encode_block s block n) = chroma_format s /\
  permutated (encode_block s block n) = permutated s /\
  block_last_index (encode_block s block n) = block_last_index s.
Proof. repeat split. Qed.

End BlockFacts.

Section BlockLog.
Context {W : Type} `{BW : BitWriter W} `{T : ExternTables}.

(** The AC loop run on any writer appends the calls it makes on a recording
    writer. *)
Lemma ac_loop_log (s : SpeedHQEncContext W) (block : list Z) (cnt : nat) (lo : Z)
    (p : W) (z : Z) :
  fst (for_range cnt lo (ac_body s block) (p, z)) =
    put_all p (fst (for_range cnt lo (ac_body (set_pb s ([] : PutLog)) block) ([], z))).
Proof.
  pose (R := fun (x : W * Z) (y : PutLog * Z) =>
               fst x = put_all p (fst y) /\ snd x = snd y).
  apply (for_range_sim R).
  - split; reflexivity.
  - intros i [x z1] [l z2] [Hx Hz]. cbn [fst snd] in Hx, Hz. subst z2 x.
    unfold R, ac_body. cbn [set_pb permutated].
    destruct (negb (rd block (rd (permutated s) i) =? 0)); [|split; reflexivity].
    destruct (MASK_ABS (rd block (rd (permutated s) i))) as [sign alevel].
    destruct (alevel <=? rd speedhq_max_level (i - z1 - 1)); cbn [fst snd];
      (split; [|reflexivity]); simpl put_bits_le; rewrite !put_all_app; reflexivity.
Qed.

(** A block is the DC call, the calls of the AC loop and the end-of-block
    code, on every writer. *)
Lemma encode_block_parts (s : SpeedHQEncContext W) (block : list Z) (n : Z) :
  let component := if n <=? 3 then 0 else Z.land n 1 + 1 in
  let diff := rd (last_dc s) component - rd block 0 in
  pb (encode_block s block n) =
    put_all (encode_dc (pb s) diff component) (ac_emitted s block n ++ [(4, 6)]).
Proof.
  intros component diff. unfold encode_block, ac_emitted.
  fold component. fold diff.
  cbn [set_pb set_last_dc pb last_dc block_last_index permutated].
  rewrite put_all_app. cbn [put_all fold_left fst snd]. f_equal.
  rewrite ac_loop_log. reflexivity.
Qed.

End BlockLog.

Lemma emitted_parts `{T : ExternTables} {W : Type} (s : SpeedHQEncContext W)
    (block : list Z) (n : Z) :
  let component := if n <=? 3 then 0 else Z.land n 1 + 1 in
  let diff := rd (last_dc s) component - rd block 0 in
  emitted s block n =
    encode_dc ([] : PutLog) diff component ++ ac_emitted s block n ++ [(4, 6)].
Proof.
  intros component diff. unfold emitted.
  rewrite (encode_block_parts (set_pb s ([] : PutLog))).
  rewrite put_all_log. reflexivity.
Qed.

(** A block run on any writer appends the calls observed on a recording
    writer. *)
Lemma encode_block_log `{T : ExternTables} {W : Type} `{BW : BitWriter W}
    (s : SpeedHQEncContext W) (block : list Z) (n : Z) :
  pb (encode_block s block n) = put_all (pb s) (emitted s block n).
Proof.
  rewrite encode_block_parts, emitted_parts, (put_all_app (pb s)), <- encode_dc_log.
  reflexivity.
Qed.

Lemma land_1_cases (n : Z) : Z.land n 1 = 0 \/ Z.land n 1 = 1.
Proof.
  assert (E : Z.land n 1 = n mod 2) by (apply (Z.land_ones n 1); lia).
  rewrite E. pose proof (Z.mod_pos_bound n 2). lia.
Qed.

Lemma sample_block_int16 (dc j v : Z) :
  int16 dc -> int16 v -> Forall int16 (sample_block dc j v).
Proof.
  intros Hdc Hv. unfold sample_block, wr.
  assert (H : Forall int16 (dc :: replicate 63 0)).
  { constructor; [exact Hdc|]. apply Forall_replicate. unfold int16; lia. }
  destruct (0 <=? j); [apply Forall_insert; assumption | exact H].
Qed.

(** C3: the AC part of a block is, for every nonzero coefficient at a scan
    position [i] in [1..last_index], with [run = i - last_nonzero - 1] and
    [alevel = |level|], either the [len + 1] bits of value
    [code | (sign << len)] for the row [(code, len)] of the AC table at
    [index_run[run] + alevel - 1], [sign] being 1 exactly for a negative
    level, when [alevel <= max_level[run]], or else 6 bits of value 32, the
    run in 6 bits and [level + 2048] in 12 bits; 4 bits of value 6 follow the
    last coefficient. *)
Theorem encode_block_ac_emission {W : Type} `{BW : BitWriter W} `{T : ExternTables}
    (s : SpeedHQEncContext W) (block : list Z) (n : Z) :
  Forall int16 block ->
  let component := if n <=? 3 then 0 else Z.land n 1 + 1 in
  let diff := rd (last_dc s) component - rd block 0 in
  let last_index := rd (block_last_index s) n in
  (forall i p last_non_zero,
     ac_body s block i (p, last_non_zero) =
       let level := rd block (rd (permutated s) i) in
       if level =? 0 then (p, last_non_zero)
       else (put_all p (ac_coef_ops (i - last_non_zero - 1) level), i)) /\
  pb (encode_block s block n) =
    put_all (encode_dc (pb s) diff component)
            (ac_ops (permutated s) block last_index ++ [(4, 6)]) /\
  emitted s block n =
    encode_dc ([] : PutLog) diff component ++
    ac_ops (permutated s) block last_index ++ [(4, 6)].
Proof.
  intros Hblock component diff last_index. split; [|split].
  - intros i p lnz. apply ac_body_ops.
    apply (rd_Forall int16); [unfold int16; lia | exact Hblock].
  - apply encode_block_pb. exact Hblock.
  - unfold emitted. rewrite (encode_block_pb (set_pb s ([] : PutLog))) by exact Hblock.
    rewrite put_all_log. reflexivity.
Qed.

Lemma encode_block_ac_emission_witness :
  emitted (sample_ctx init_put_bits 5) (sample_block 128 16 (-2)) 0 =
    [(3, 1)] ++ [(6, 32); (6, 2); (12, 2046)] ++ [(4, 6)] /\
  emitted (sample_ctx init_put_bits 5) (sample_block 128 1 (-2)) 0 =
    [(3, 1)] ++ [(4, 11)] ++ [(4, 6)].
Proof.
  split.
  - refine (eq_trans (proj2 (proj2 (encode_block_ac_emission
      (sample_ctx init_put_bits 5) (sample_block 128 16 (-2)) 0 _))) _).
    + apply sample_block_int16; unfold int16; lia.
    + reflexivity.
  - refine (eq_trans (proj2 (proj2 (encode_block_ac_emission
      (sample_ctx init_put_bits 5) (sample_block 128 1 (-2)) 0 _))) _).
    + apply sample_block_int16; unfold int16; lia.
    + reflexivity.
Defined.

(** C4: for every block index [n], [encode_block] takes component 0 when
    [n <= 3] and [(n & 1) + 1] otherwise, passes to the DC encoder the
    difference [last_dc[component] - block[0]] (previous minus current) as
    its first call, and then stores [block[0]] in [last_dc[component]],
    leaving the other two entries of [last_dc] as they were. *)
Theorem encode_block_dc_prediction {W : Type} `{BW : BitWriter W} `{T : ExternTables}
    (s : SpeedHQEncContext W) (block : list Z) (n : Z) :
  length (last_dc s) = 3%nat ->
  let component := if n <=? 3 then 0 else Z.land n 1 + 1 in
  let diff := rd (last_dc s) component - rd block 0 in
  (n <= 3 -> component = 0) /\
  (3 < n -> component = n mod 2 + 1) /\
  0 <= component <= 2 /\
  pb (encode_block s block n) =
    put_all (encode_dc (pb s) diff component) (ac_emitted s block n ++ [(4, 6)]) /\
  emitted s block n =
    encode_dc ([] : PutLog) diff component ++ ac_emitted s block n ++ [(4, 6)] /\
  last_dc (encode_block s block n) = wr (last_dc s) component (rd block 0) /\
  rd (last_dc (encode_block s block n)) component = rd block 0 /\
  (forall c, c <> component ->
     rd (last_dc (encode_block s block n)) c = rd (last_dc s) c).
Proof.
  intros Hlen component diff.
  assert (Hrange : 0 <= component <= 2).
  { unfold component. destruct (n <=? 3); [lia|].
    destruct (land_1_cases n) as [-> | ->]; lia. }
  split; [|split; [|split; [exact Hrange|]]].
  - intros Hn. unfold component. destruct (n <=? 3) eqn:E; [reflexivity | lia].
  - intros Hn. unfold component. destruct (n <=? 3) eqn:E; [lia|].
    f_equal. apply (Z.land_ones n 1). lia.
  - split; [apply encode_block_parts|].
    split; [apply emitted_parts|].
    rewrite encode_block_last_dc. fold component.
    split; [reflexivity|]. split.
    + apply rd_wr_same. lia.
    + intros c Hc. apply rd_wr_other. congruence.
Qed.

Lemma encode_block_dc_prediction_witness :
  emitted (sample_ctx init_put_bits 0) (sample_block 100 1 0) 5 =
    encode_dc ([] : PutLog) (128 - 100) 2 ++ [] ++ [(4, 6)] /\
  last_dc (encode_block (sample_ctx init_put_bits 0) (sample_block 100 1 0) 5) =
    [128; 128; 100].
Proof.
  pose proof (encode_block_dc_prediction
                (sample_ctx init_put_bits 0) (sample_block 100 1 0) 5 eq_refl) as H.
  cbv zeta in H. destruct H as (_ & _ & _ & _ & He & Hd & _).
  split; [rewrite He | rewrite Hd]; reflexivity.
Defined.

(** ** Macroblocks *)

Lemma fold_blocks_emitted {W : Type} `{BW : BitWriter W} `{T : ExternTables}
    (block : list (list Z)) (order : list Z) (s : SpeedHQEncContext W) :
  pb (fold_left (fun st i => encode_block st (rd_block block i) i) order s) =
    put_all (pb s) (mb_emitted s block order).
Proof.
  revert s. induction order as [|i rest IH]; intros s; cbn [fold_left mb_emitted].
  - reflexivity.
  - rewrite IH, put_all_app, <- encode_block_log. reflexivity.
Qed.

Lemma fold_blocks_chroma {W : Type} `{BW : BitWriter W} `{T : ExternTables}
    (block : list (list Z)) (order : list Z) (s : SpeedHQEncContext W) :
  chroma_format (fold_left (fun st i => encode_block st (rd_block block i) i) order s) =
    chroma_format s.
Proof.
  revert s. induction order as [|i rest IH]; intros s; cbn [fold_left].
  - reflexivity.
  - rewrite IH. reflexivity.
Qed.

(** Attributing the bits written to [i_tex_bits] changes neither the writer
    nor the DC predictors. *)
Lemma tex_update_frame {W : Type} `{BW : BitWriter W} (x : SpeedHQEncContext W) :
  pb (let '(d, s) := get_bits_diff x in
      set_tex_bits s (i_tex_bits s + d) (last_bits s)) = pb x /\
  last_dc (let '(d, s) := get_bits_diff x in
           set_tex_bits s (i_tex_bits s + d) (last_bits s)) = last_dc x.
Proof. split; reflexivity. Qed.

(** C5: [ff_speedhq_encode_mb] encodes the blocks of a macroblock in the
    order 0,1,2,3,4,5 for 4:2:0, 0,1,2,3,4,5,6,7 for 4:2:2 and
    0,1,2,3,4,5,8,9,6,7,10,11 for 4:4:4: its writer and DC predictors are
    those of encoding the blocks one after the other in that order, and the
    calls it makes are the calls of these blocks in that order. *)
Theorem encode_mb_block_order {W : Type} `{BW : BitWriter W} `{T : ExternTables}
    (s : SpeedHQEncContext W) (block : list (list Z)) :
  let order := mb_block_order (chroma_format s) in
  let run := fold_left (fun st i => encode_block st (rd_block block i) i) order s in
  pb (ff_speedhq_encode_mb s block) = pb run /\
  last_dc (ff_speedhq_encode_mb s block) = last_dc run /\
  pb (ff_speedhq_encode_mb s block) = put_all (pb s) (mb_emitted s block order) /\
  mb_block_order CHROMA_420 = [0; 1; 2; 3; 4; 5] /\
  mb_block_order CHROMA_422 = [0; 1; 2; 3; 4; 5; 6; 7] /\
  mb_block_order CHROMA_444 = [0; 1; 2; 3; 4; 5; 8; 9; 6; 7; 10; 11].
Proof.
  intros order run.
  assert (H : pb (ff_speedhq_encode_mb s block) = pb run /\
              last_dc (ff_speedhq_encode_mb s block) = last_dc run).
  { unfold run, order, ff_speedhq_encode_mb.
    rewrite for_range_fold. change (zseq 0 6) with [0; 1; 2; 3; 4; 5].
    cbv zeta. rewrite fold_blocks_chroma.
    match goal with
    | |- context [get_bits_diff ?x] => destruct (tex_update_frame x) as [-> ->]
    end.
    destruct (chroma_format s); cbn [mb_block_order fold_left]; split; reflexivity. }
  destruct H as [Hpb Hdc].
  repeat split; try assumption.
  rewrite Hpb. apply fold_blocks_emitted.
Qed.

(** The 4:4:4 order on a macroblock whose blocks are told apart by the run of
    their only AC coefficient: blocks 8 and 9 come before 6 and 7. *)
Example encode_mb_444_sample :
  pb (ff_speedhq_encode_mb sample_ctx_444 sample_mb) =
    [(3, 1); (3, 1); (4, 6)] ++ [(3, 1); (4, 2); (4, 6)] ++
    [(3, 1); (6, 32); (6, 2); (12, 2049); (4, 6)] ++
    [(3, 1); (6, 32); (6, 3); (12, 2049); (4, 6)] ++
    [(2, 0); (6, 32); (6, 4); (12, 2049); (4, 6)] ++
    [(2, 0); (6, 32); (6, 5); (12, 2049); (4, 6)] ++
    [(2, 0); (6, 32); (6, 8); (12, 2049); (4, 6)] ++
    [(2, 0); (6, 32); (6, 9); (12, 2049); (4, 6)] ++
    [(2, 0); (6, 32); (6, 6); (12, 2049); (4, 6)] ++
    [(2, 0); (6, 32); (6, 7); (12, 2049); (4, 6)] ++
    [(2, 0); (6, 32); (6, 10); (12, 2049); (4, 6)] ++
    [(2, 0); (6, 32); (6, 11); (12, 2049); (4, 6)].
Proof. vm_compute. reflexivity. Qed.

(** ** Coefficients outside the escape range *)

Section Escape.
Context `{T : ExternTables}.

Lemma ac_coef_ops_escape (run level : Z) :
  Forall uint8 speedhq_max_level -> 255 < Z.abs level ->
  ac_coef_ops run level = [(6, 32); (6, run); (12, level + 2048)].
Proof.
  intros Hmax Hl. unfold ac_coef_ops.
  assert (Hm : uint8 (rd speedhq_max_level run))
    by (apply (rd_Forall uint8); [unfold uint8; lia | exact Hmax]).
  unfold uint8 in Hm.
  destruct (Z.abs level <=? rd speedhq_max_level run) eqn:E; [lia | reflexivity].
Qed.

(** The pair of a nonzero coefficient at position [i] occurs among the pairs
    of the scan positions [lo..lo+cnt-1], with the run counted from an
    earlier position. *)
Lemma runs_ops_occurs (lv : Z -> Z) (i : Z) (cnt : nat) (lo p : Z) :
  p < lo -> lo <= i < lo + Z.of_nat cnt -> lv i <> 0 ->
  exists pre post prev,
    p <= prev < i /\
    runs_ops lv p (List.filter (fun k => negb (lv k =? 0)) (zseq lo cnt)) =
      pre ++ ac_coef_ops (i - prev - 1) (lv i) ++ post.
Proof.
  intros Hp Hi Hnz. revert lo p Hp Hi.
  induction cnt as [|c IH]; intros lo p Hp Hi; [lia|].
  cbn [zseq List.filter].
  destruct (Z.eq_dec i lo) as [->|Hne].
  - destruct (lv lo =? 0) eqn:E; [lia|]. cbn [negb runs_ops].
    exists [], (runs_ops lv lo (List.filter (fun k => negb (lv k =? 0)) (zseq (lo + 1) c))), p.
    split; [lia | reflexivity].
  - destruct (lv lo =? 0) eqn:E; cbn [negb runs_ops].
    + destruct (IH (lo + 1) p) as (pre & post & prev & Hprev & Heq); [lia | lia |].
      exists pre, post, prev. split; [lia | exact Heq].
    + destruct (IH (lo + 1) lo) as (pre & post & prev & Hprev & Heq); [lia | lia |].
      exists (ac_coef_ops (lo - p - 1) (lv lo) ++ pre), post, prev.
      split; [lia|]. rewrite Heq, <- app_assoc. reflexivity.
Qed.

End Escape.

Lemma sample_max_level_uint8 :
  Forall uint8 (@speedhq_max_level sample_tables).
Proof.
  cbn [speedhq_max_level sample_tables].
  repeat (constructor; [unfold uint8; lia|]). constructor.
Qed.

(** C9, as stated, fails: a block with the coefficient 3000 at scan position
    1 is encoded like any other, the escape sequence carrying
    [3000 + 2048] in its 12-bit call.  The level tables hold [uint8_t]
    entries, so the same happens with every run/level table. *)
Lemma escape_emitted_for_3000 :
  2047 < Z.abs (rd (sample_block 128 1 3000) (rd zigzag 1)) /\
  emitted (sample_ctx init_put_bits 1) (sample_block 128 1 3000) 0 =
    [(3, 1); (6, 32); (6, 0); (12, 3000 + 2048); (4, 6)].
Proof. by_eval. Qed.

(** C9, amended: the block encoder has no error exit.  For every AC
    coefficient within [1..last_index] whose magnitude exceeds 2047, the
    loop body and hence the block emit the escape sequence: 6 bits of value
    32, the run in 6 bits and [level + 2048] as the value of the 12-bit
    call. *)
Theorem large_level_is_escaped {W : Type} `{BW : BitWriter W} `{T : ExternTables}
    (s : SpeedHQEncContext W) (block : list Z) (n i : Z) (p : W) (lnz : Z) :
  Forall uint8 speedhq_max_level -> Forall int16 block ->
  1 <= i <= rd (block_last_index s) n ->
  let level := rd block (rd (permutated s) i) in
  2047 < Z.abs level ->
  ac_body s block i (p, lnz) =
    (put_all p [(6, 32); (6, i - lnz - 1); (12, level + 2048)], i) /\
  pb (encode_block s block n) = put_all (pb s) (emitted s block n) /\
  exists pre post run,
    0 <= run < i /\
    emitted s block n = pre ++ [(6, 32); (6, run); (12, level + 2048)] ++ post.
Proof.
  intros Hmax Hblock Hi level Hlevel.
  assert (Hint : int16 level)
    by (apply (rd_Forall int16); [unfold int16; lia | exact Hblock]).
  split; [|split].
  - rewrite ac_body_ops by exact Hint. cbv zeta. fold level.
    destruct (level =? 0) eqn:E; [lia|].
    rewrite ac_coef_ops_escape by (assumption || lia). reflexivity.
  - apply encode_block_log.
  - unfold emitted.
    rewrite (encode_block_pb (set_pb s ([] : PutLog))) by exact Hblock.
    rewrite put_all_log. cbn [set_pb pb last_dc permutated block_last_index].
    unfold ac_ops.
    destruct (runs_ops_occurs (fun k => rd block (rd (permutated s) k)) i
                (Z.to_nat (rd (block_last_index s) n)) 1 0)
      as (pre & post & prev & Hprev & Heq); [lia | lia | fold level; lia |].
    rewrite Heq. fold level.
    rewrite ac_coef_ops_escape by (assumption || lia).
    match goal with
    | |- exists _ _ _, _ /\ ?dc ++ _ = _ =>
        exists (dc ++ pre), (post ++ [(4, 6)]), (i - prev - 1)
    end.
    split; [lia|]. rewrite <- !app_assoc. reflexivity.
Qed.

Lemma large_level_is_escaped_witness :
  ac_body (sample_ctx init_put_bits 1) (sample_block 128 1 3000) 1 (init_put_bits, 0) =
    (put_all init_put_bits [(6, 32); (6, 1 - 0 - 1); (12, 3000 + 2048)], 1).
Proof.
  refine (proj1 (large_level_is_escaped (T := sample_tables)
            (sample_ctx init_put_bits 1) (sample_block 128 1 3000) 0 1
            init_put_bits 0 _ _ _ _)).
  - exact sample_max_level_uint8.
  - apply sample_block_int16; unfold int16; lia.
  - by_eval.
  - by_eval.
Defined.

(** ** Coefficients beyond the last index *)

(** C10: two calls of [encode_block] with the same block index, last index,
    scan permutation and DC predictors, on blocks that agree at index 0 and
    at every scan position [permutated[i]] for [1 <= i <= last_index], make
    the same calls to the bit writer and leave the same DC predictors:
    coefficients beyond [last_index] have no influence. *)
Theorem encode_block_ignores_tail {W : Type} `{BW : BitWriter W} `{T : ExternTables}
    (s1 s2 : SpeedHQEncContext W) (b1 b2 : list Z) (n : Z) :
  last_dc s1 = last_dc s2 ->
  permutated s1 = permutated s2 ->
  rd (block_last_index s1) n = rd (block_last_index s2) n ->
  rd b1 0 = rd b2 0 ->
  (forall i, 1 <= i <= rd (block_last_index s1) n ->
     rd b1 (rd (permutated s1) i) = rd b2 (rd (permutated s1) i)) ->
  emitted s1 b1 n = emitted s2 b2 n /\
  pb (encode_block s1 b1 n) = put_all (pb s1) (emitted s1 b1 n) /\
  pb (encode_block s2 b2 n) = put_all (pb s2) (emitted s1 b1 n) /\
  (pb s1 = pb s2 -> pb (encode_block s1 b1 n) = pb (encode_block s2 b2 n)) /\
  last_dc (encode_block s1 b1 n) = last_dc (encode_block s2 b2 n).
Proof.
  intros Hdc Hperm Hlast H0 Hscan.
  assert (Hem : emitted s1 b1 n = emitted s2 b2 n).
  { rewrite !emitted_parts. rewrite Hdc, H0. f_equal. f_equal.
    unfold ac_emitted. rewrite <- Hlast. f_equal.
    apply for_range_ext. intros i [l z] Hi.
    unfold ac_body. cbn [set_pb permutated].
    rewrite <- Hperm, (Hscan i) by lia. reflexivity. }
  split; [exact Hem|]. split; [apply encode_block_log|].
  split; [rewrite Hem; apply encode_block_log|]. split.
  - intros Hpb. rewrite !encode_block_log, Hem, Hpb. reflexivity.
  - rewrite !encode_block_last_dc, Hdc, H0. reflexivity.
Qed.

Lemma encode_block_ignores_tail_witness :
  emitted (sample_ctx init_put_bits 1) (sample_block 128 1 1) 0 =
  emitted (sample_ctx init_put_bits 1) (wr (sample_block 128 1 1) 63 77) 0.
Proof.
  refine (proj1 (encode_block_ignores_tail (T := sample_tables)
            (sample_ctx init_put_bits 1) (sample_ctx init_put_bits 1)
            (sample_block 128 1 1) (wr (sample_block 128 1 1) 63 77) 0
            eq_refl eq_refl eq_refl eq_refl _)).
  intros i Hi. change (rd (block_last_index (sample_ctx init_put_bits 1)) 0) with 1 in Hi.
  assert (i = 1) as -> by lia. reflexivity.
Defined.

(** * Further properties *)

(** ** The unified DC tables, continued *)

(** X1: [speedhq_init_static_data] leaves both unified tables at 512 entries
    and never writes the last one: slot 511 keeps its initial zero. *)
Theorem dc_uni_last_slot_unused `{T : ExternTables} :
  length speedhq_lum_dc_uni = 512%nat /\
  length speedhq_chr_dc_uni = 512%nat /\
  rd speedhq_lum_dc_uni 511 = 0 /\
  rd speedhq_chr_dc_uni 511 = 0.
Proof.
  unfold speedhq_lum_dc_uni, speedhq_chr_dc_uni, speedhq_init_static_data.
  pose proof (init_loop_slots
    (dc_uni_entry ff_mpeg12_vlc_dc_lum_bits mpeg12_vlc_dc_lum_code_reversed)
    (dc_uni_entry ff_mpeg12_vlc_dc_chroma_bits mpeg12_vlc_dc_chroma_code_reversed)
    511 (-255) (replicate 512 0, replicate 512 0)) as H.
  cbv zeta in H. destruct H as (Hl1 & Hl2 & Hout & _).
  cbn [fst snd] in Hl1, Hl2. rewrite length_replicate in Hl1, Hl2.
  destruct (Hout 256) as [E1 E2]; [lia|].
  change (256 + 255) with 511 in E1, E2. cbn [fst snd] in E1, E2.
  split; [exact Hl1|]. split; [exact Hl2|].
  split; [rewrite E1 | rewrite E2]; reflexivity.
Qed.

(** X2: the code length packed in a unified entry depends on the magnitude
    of the difference only: the entries of [d] and [-d] hold the same
    length. *)
Theorem dc_uni_length_symmetric `{T : ExternTables} (d : Z) :
  dc_lengths_fit ff_mpeg12_vlc_dc_lum_bits ->
  dc_lengths_fit ff_mpeg12_vlc_dc_chroma_bits ->
  -255 <= d <= 255 ->
  Z.land (rd speedhq_lum_dc_uni (d + 255)) 0xFF =
    Z.land (rd speedhq_lum_dc_uni (- d + 255)) 0xFF /\
  Z.land (rd speedhq_chr_dc_uni (d + 255)) 0xFF =
    Z.land (rd speedhq_chr_dc_uni (- d + 255)) 0xFF.
Proof.
  intros Hlum Hchr Hd.
  assert (Hd' : -255 <= - d <= 255) by lia.
  destruct (dc_uni_lookup d Hd) as [-> ->].
  destruct (dc_uni_lookup (- d) Hd') as [-> ->].
  destruct code_reversed_bounds as [Clum Cchr].
  destruct (dc_uni_entry_unpack _ _ d Hlum Clum Hd) as [-> _].
  destruct (dc_uni_entry_unpack _ _ d Hchr Cchr Hd) as [-> _].
  destruct (dc_uni_entry_unpack _ _ (- d) Hlum Clum Hd') as [-> _].
  destruct (dc_uni_entry_unpack _ _ (- d) Hchr Cchr Hd') as [-> _].
  rewrite Z.abs_opp. split; reflexivity.
Qed.

Lemma sample_dc_lengths_fit :
  dc_lengths_fit (@ff_mpeg12_vlc_dc_lum_bits sample_tables) /\
  dc_lengths_fit (@ff_mpeg12_vlc_dc_chroma_bits sample_tables).
Proof. split; unfold dc_lengths_fit; simpl; repeat constructor; lia. Qed.

Lemma dc_uni_length_symmetric_witness :
  Z.land (rd speedhq_lum_dc_uni (100 + 255)) 0xFF =
    Z.land (rd speedhq_lum_dc_uni (- 100 + 255)) 0xFF /\
  Z.land (rd speedhq_chr_dc_uni (100 + 255)) 0xFF =
    Z.land (rd speedhq_chr_dc_uni (- 100 + 255)) 0xFF.
Proof.
  apply (dc_uni_length_symmetric (T := sample_tables) 100).
  - exact (proj1 sample_dc_lengths_fit).
  - exact (proj2 sample_dc_lengths_fit).
  - lia.
Defined.

(** ** DC coefficients, continued *)

(** Which arm [encode_dc] takes, for a difference that is an [int]. *)
Lemma encode_dc_arms {W : Type} `{BW : BitWriter W} `{T : ExternTables}
    (p : W) (d c : Z) :
  - 2 ^ 31 <= d -> d + 255 < 2 ^ 31 ->
  encode_dc p d c =
    if (-255 <=? d) && (d <=? 255) then encode_dc_fast p d c
    else encode_dc_slow p d c.
Proof.
  intros Hlo Hhi. unfold encode_dc. change (2 ^ 31) with 2147483648 in *.
  destruct (Z_lt_dec (d + 255) 0) as [Hneg|Hpos].
  - replace ((d + 255) mod 2 ^ 32) with (d + 255 + 2 ^ 32)
      by (apply Z.mod_unique with (-1); change (2 ^ 32) with 4294967296; lia).
    change (2 ^ 32) with 4294967296.
    destruct (511 <=? d + 255 + 4294967296) eqn:E; [|lia].
    destruct (-255 <=? d) eqn:E1; [lia|]. reflexivity.
  - rewrite Z.mod_small by (change (2 ^ 32) with 4294967296; lia).
    destruct (-255 <=? d) eqn:E1; [|lia]. cbn [andb].
    destruct (d <=? 255) eqn:E2; destruct (511 <=? d + 255) eqn:E3;
      try reflexivity; lia.
Qed.

(** X3: the unsigned comparison [diff_u >= 511] of [encode_dc] sends exactly
    the differences outside [-255, 255] to the computed arm, the negative
    ones included, and all others to the table. *)
Theorem encode_dc_arm_selection {W : Type} `{BW : BitWriter W} `{T : ExternTables}
    (p : W) (d c : Z) :
  - 2 ^ 31 <= d -> d + 255 < 2 ^ 31 ->
  (-255 <= d <= 255 -> encode_dc p d c = encode_dc_fast p d c) /\
  (d < -255 \/ 255 < d -> encode_dc p d c = encode_dc_slow p d c).
Proof.
  intros Hlo Hhi. rewrite (encode_dc_arms p d c Hlo Hhi). split.
  - intros Hd. destruct (-255 <=? d) eqn:E1; [|lia].
    destruct (d <=? 255) eqn:E2; [reflexivity | lia].
  - intros Hd. destruct (-255 <=? d) eqn:E1; [|reflexivity].
    destruct (d <=? 255) eqn:E2; [lia | reflexivity].
Qed.

Lemma encode_dc_arm_selection_witness :
  encode_dc ([] : PutLog) (-300) 0 = encode_dc_slow [] (-300) 0.
Proof.
  apply (encode_dc_arm_selection (T := sample_tables) [] (-300) 0).
  - by_eval.
  - by_eval.
  - left. lia.
Defined.


(** The call of the computed arm, with its category and tail named. *)
Lemma encode_dc_slow_eq {W : Type} `{BW : BitWriter W} `{T : ExternTables}
    (p : W) (d c : Z) :
  let index := Z.log2 (2 * Z.abs d) in
  let tail := av_zero_extend (if d <? 0 then d - 1 else d) index in
  let bits_tab := if c =? 0 then ff_mpeg12_vlc_dc_lum_bits
                  else ff_mpeg12_vlc_dc_chroma_bits in
  let code_tab := if c =? 0 then mpeg12_vlc_dc_lum_code_reversed
                  else mpeg12_vlc_dc_chroma_code_reversed in
  encode_dc_slow p d c =
    put_bits_le p (rd bits_tab index + index)
      (rd code_tab index + Z.shiftl tail (rd bits_tab index)).
Proof.
  intros index tail bits_tab code_tab.
  unfold encode_dc_slow, av_log2_16bit, bits_tab, code_tab, tail, index.
  destruct (d <? 0) eqn:E.
  - replace (-2 * d) with (2 * Z.abs d) by lia. destruct (c =? 0); reflexivity.
  - replace (2 * Z.abs d) with (2 * d) by lia. destruct (c =? 0); reflexivity.
Qed.

(** Within the table range both arms make the same call. *)
Lemma encode_dc_fast_slow {W : Type} `{BW : BitWriter W} `{T : ExternTables}
    (p : W) (d c : Z) :
  dc_lengths_fit ff_mpeg12_vlc_dc_lum_bits ->
  dc_lengths_fit ff_mpeg12_vlc_dc_chroma_bits ->
  -255 <= d <= 255 ->
  encode_dc_fast p d c = encode_dc_slow p d c.
Proof.
  intros Hlum Hchr Hd. unfold encode_dc_fast, encode_dc_slow.
  destruct (dc_uni_lookup d Hd) as [-> ->].
  destruct (dc_category_small d Hd) as [_ ->].
  destruct code_reversed_bounds as [Clum Cchr].
  destruct (dc_uni_entry_unpack _ _ d Hlum Clum Hd) as [-> ->].
  destruct (dc_uni_entry_unpack _ _ d Hchr Cchr Hd) as [-> ->].
  reflexivity.
Qed.

(** Whatever the arm, [encode_dc] makes the call of the computed arm. *)
Lemma encode_dc_is_slow {W : Type} `{BW : BitWriter W} `{T : ExternTables}
    (p : W) (d c : Z) :
  dc_lengths_fit ff_mpeg12_vlc_dc_lum_bits ->
  dc_lengths_fit ff_mpeg12_vlc_dc_chroma_bits ->
  -32768 <= d <= 32767 ->
  encode_dc p d c = encode_dc_slow p d c.
Proof.
  intros Hlum Hchr Hd.
  rewrite encode_dc_arms by (change (2 ^ 31) with 2147483648; lia).
  destruct (-255 <=? d) eqn:E1; [|reflexivity].
  destruct (d <=? 255) eqn:E2; [|reflexivity].
  apply encode_dc_fast_slow; [assumption | assumption | lia].
Qed.

(** The category of a nonzero difference is the number of bits of its
    magnitude. *)
Lemma dc_category_spec (d : Z) :
  d <> 0 ->
  let index := Z.log2 (2 * Z.abs d) in
  1 <= index /\ 2 ^ (index - 1) <= Z.abs d < 2 ^ index.
Proof.
  intros Hd index.
  assert (Hpos : 0 < 2 * Z.abs d) by lia.
  pose proof (Z.log2_spec _ Hpos) as Hspec. fold index in Hspec.
  assert (H1 : 1 <= index).
  { unfold index. apply Z.log2_le_pow2; [lia|]. change (2 ^ 1) with 2. lia. }
  split; [exact H1|].
  replace (2 ^ index) with (2 * 2 ^ (index - 1)) in Hspec
    by (rewrite <- Z.pow_succ_r by lia; f_equal; lia).
  replace (2 ^ Z.succ index) with (2 * 2 ^ index) in Hspec
    by (rewrite <- Z.pow_succ_r by lia; reflexivity).
  replace (2 ^ index) with (2 * 2 ^ (index - 1))
    by (rewrite <- Z.pow_succ_r by lia; f_equal; lia).
  replace (2 ^ index) with (2 * 2 ^ (index - 1)) in Hspec
    by (rewrite <- Z.pow_succ_r by lia; f_equal; lia).
  lia.
Qed.

(** X4: in the computed arm of [encode_dc] the category of a difference
    beyond the table range is at least 9, and it stays within the 12
    entries of the category tables exactly when the magnitude is at most
    2047; for larger magnitudes the tables are indexed past their end. *)
Theorem dc_slow_category_bounds {W : Type} `{BW : BitWriter W} `{T : ExternTables}
    (p : W) (d : Z) :
  255 < Z.abs d ->
  exists index,
    encode_dc_slow p d 0 =
      put_bits_le p (rd ff_mpeg12_vlc_dc_lum_bits index + index)
        (rd mpeg12_vlc_dc_lum_code_reversed index +
         Z.shiftl (av_zero_extend (if d <? 0 then d - 1 else d) index)
                  (rd ff_mpeg12_vlc_dc_lum_bits index)) /\
    9 <= index /\
    (Z.abs d <= 2047 -> index < Z.of_nat (length mpeg12_vlc_dc_lum_code_reversed)) /\
    (2047 < Z.abs d ->
       Z.of_nat (length mpeg12_vlc_dc_lum_code_reversed) <= index /\
       Z.of_nat (length mpeg12_vlc_dc_chroma_code_reversed) <= index).
Proof.
  intros Hd. exists (Z.log2 (2 * Z.abs d)).
  split; [apply (encode_dc_slow_eq p d 0)|].
  destruct (dc_category_spec d) as [H1 Hb]; [lia|].
  set (index := Z.log2 (2 * Z.abs d)) in *.
  change (Z.of_nat (length mpeg12_vlc_dc_lum_code_reversed)) with 12.
  change (Z.of_nat (length mpeg12_vlc_dc_chroma_code_reversed)) with 12.
  assert (H9 : 9 <= index).
  { destruct (Z_lt_dec index 9) as [Hlt|]; [|lia]. exfalso.
    assert (2 ^ index <= 2 ^ 8) by (apply Z.pow_le_mono_r; lia).
    change (2 ^ 8) with 256 in *. lia. }
  split; [exact H9|]. split.
  - intros Hle. destruct (Z_lt_dec index 12) as [|Hge]; [assumption|]. exfalso.
    assert (2 ^ 11 <= 2 ^ (index - 1)) by (apply Z.pow_le_mono_r; lia).
    change (2 ^ 11) with 2048 in *. lia.
  - intros Hgt. assert (12 <= index); [|lia].
    destruct (Z_lt_dec index 12) as [Hlt|]; [|lia]. exfalso.
    assert (2 ^ index <= 2 ^ 11) by (apply Z.pow_le_mono_r; lia).
    change (2 ^ 11) with 2048 in *. lia.
Qed.

Lemma dc_slow_category_bounds_witness :
  exists index,
    encode_dc_slow ([] : PutLog) (-2047) 0 =
      put_bits_le [] (rd ff_mpeg12_vlc_dc_lum_bits index + index)
        (rd mpeg12_vlc_dc_lum_code_reversed index +
         Z.shiftl (av_zero_extend (if -2047 <? 0 then -2047 - 1 else -2047) index)
                  (rd ff_mpeg12_vlc_dc_lum_bits index)) /\
    9 <= index /\
    (Z.abs (-2047) <= 2047 -> index < Z.of_nat (length mpeg12_vlc_dc_lum_code_reversed)) /\
    (2047 < Z.abs (-2047) ->
       Z.of_nat (length mpeg12_vlc_dc_lum_code_reversed) <= index /\
       Z.of_nat (length mpeg12_vlc_dc_chroma_code_reversed) <= index).
Proof.
  apply (dc_slow_category_bounds (T := sample_tables) [] (-2047)). by_eval.
Defined.



(** ** Block coding, continued *)

Lemma rd2_Forall (P : Z * Z -> Prop) (l : list (Z * Z)) (i : Z) :
  P (0, 0) -> Forall P l -> P (rd2 l i).
Proof.
  intros H0 Hl. unfold rd2. destruct (0 <=? i); [|exact H0].
  rewrite nth_lookup. destruct (l !! Z.to_nat i) as [x|] eqn:E; simpl; [|exact H0].
  eapply Forall_lookup_1; eauto.
Qed.

Lemma for_range_id {A : Type} (cnt : nat) (lo : Z) (a : A) :
  for_range cnt lo (fun _ x => x) a = a.
Proof. revert lo. induction cnt as [|c IH]; intros lo; simpl; [reflexivity | apply IH]. Qed.

Lemma for_range_inv {A : Type} (P : A -> Prop) (f : Z -> A -> A) (cnt : nat)
    (lo : Z) (a : A) :
  P a -> (forall i x, P x -> P (f i x)) -> P (for_range cnt lo f a).
Proof.
  intros Ha Hstep. revert lo a Ha.
  induction cnt as [|c IH]; intros lo a Ha; simpl; [exact Ha|].
  apply IH. apply Hstep. exact Ha.
Qed.

(** A sign bit placed above a code that fits its length adds [2^len]. *)
Lemma lor_sign_bit (code len sign : Z) :
  0 <= len -> 0 <= code < 2 ^ len -> sign = 0 \/ sign = 1 ->
  Z.lor code (Z.shiftl sign len) = code + sign * 2 ^ len.
Proof.
  intros Hlen Hcode [-> | ->].
  - rewrite Z.shiftl_0_l, Z.lor_0_r. lia.
  - rewrite Z.shiftl_1_l, Z.mul_1_l.
    assert (Hland : Z.land code (2 ^ len) = 0).
    { apply Z.bits_inj'. intros n Hn.
      rewrite Z.land_spec, Z.bits_0, Z.pow2_bits_eqb by lia.
      destruct (Z.eqb_spec len n) as [<-|Hne]; [|apply andb_false_r].
      rewrite <- (Z.mod_small code (2 ^ len)) by lia.
      rewrite Z.mod_pow2_bits_high by lia. reflexivity. }
    rewrite (Z.add_nocarry_lxor _ _ Hland). symmetry. apply Z.lxor_lor. exact Hland.
Qed.

(** X6: for a nonzero coefficient within the levels of its run, the loop
    body of [encode_block] makes one call of [len + 1] bits whose low [len]
    bits are the code of the table row and whose bit [len] is the sign, 1
    for a negative level; the value fits the [len + 1] bits. *)
Theorem ac_vlc_sign_bit {W : Type} `{BW : BitWriter W} `{T : ExternTables}
    (s : SpeedHQEncContext W) (block : list Z) (i : Z) (p : W) (lnz : Z) :
  vlc_rows_ok ->
  let level := rd block (rd (permutated s) i) in
  let run := i - lnz - 1 in
  let row := rd2 ff_speedhq_vlc_table (rd speedhq_index_run run + Z.abs level - 1) in
  int16 level -> level <> 0 -> Z.abs level <= rd speedhq_max_level run ->
  exists v,
    ac_body s block i (p, lnz) = (put_bits_le p (snd row + 1) v, i) /\
    v mod 2 ^ snd row = fst row /\
    v / 2 ^ snd row = (if level <? 0 then 1 else 0) /\
    0 <= v < 2 ^ (snd row + 1).
Proof.
  intros Hrows level run row Hint Hnz Hmax.
  assert (Hrow : 0 <= fst row < 2 ^ snd row /\ 0 <= snd row <= 16).
  { apply (rd2_Forall (fun r => 0 <= fst r < 2 ^ snd r /\ 0 <= snd r <= 16));
      [simpl; lia | exact Hrows]. }
  destruct Hrow as [Hcode Hlen].
  set (sign := if level <? 0 then 1 else 0).
  assert (Hsign : sign = 0 \/ sign = 1)
    by (unfold sign; destruct (level <? 0); [right | left]; reflexivity).
  exists (fst row + sign * 2 ^ snd row).
  assert (Hpos : 0 < 2 ^ snd row) by (apply Z.pow_pos_nonneg; lia).
  split; [|split; [|split]].
  - rewrite ac_body_ops by exact Hint. cbv zeta. fold level.
    destruct (level =? 0) eqn:E; [lia|].
    unfold ac_coef_ops. fold run.
    destruct (Z.abs level <=? rd speedhq_max_level run) eqn:E'; [|lia].
    fold row. fold sign. destruct row as [code len]. cbn [fst snd] in *.
    rewrite lor_sign_bit by (assumption || lia). reflexivity.
  - rewrite Z.mod_add by lia. apply Z.mod_small. exact Hcode.
  - rewrite Z.div_add by lia. rewrite Z.div_small by exact Hcode. lia.
  - rewrite Z.pow_add_r by lia. change (2 ^ 1) with 2.
    destruct Hsign as [-> | ->]; lia.
Qed.

Lemma sample_vlc_rows_ok : @vlc_rows_ok sample_tables.
Proof. unfold vlc_rows_ok. simpl. repeat constructor; simpl; lia. Qed.

Lemma ac_vlc_sign_bit_witness :
  exists v,
    ac_body (sample_ctx ([] : PutLog) 5) (sample_block 128 1 (-2)) 1 (([] : PutLog), 0) =
      (put_bits_le [] (3 + 1) v, 1) /\
    v mod 2 ^ 3 = 3 /\ v / 2 ^ 3 = 1 /\ 0 <= v < 2 ^ (3 + 1).
Proof.
  apply (ac_vlc_sign_bit (T := sample_tables) (sample_ctx ([] : PutLog) 5)
           (sample_block 128 1 (-2)) 1 ([] : PutLog) 0 sample_vlc_rows_ok).
  - by_eval.
  - by_eval.
  - by_eval.
Defined.

Section Contract.
Context `{T : ExternTables}.

Lemma ac_coef_ops_ok (run level : Z) :
  vlc_rows_ok -> 0 <= run <= 63 -> -2048 <= level <= 2047 ->
  Forall op_ok (ac_coef_ops run level).
Proof.
  intros Hrows Hrun Hlevel. unfold ac_coef_ops.
  destruct (Z.abs level <=? rd speedhq_max_level run).
  - assert (H0 : (fun r : Z * Z => 0 <= fst r < 2 ^ snd r /\ 0 <= snd r <= 16) (0, 0))
      by (simpl; lia).
    pose proof (rd2_Forall _ ff_speedhq_vlc_table
                 (rd speedhq_index_run run + Z.abs level - 1) H0 Hrows) as Hrow.
    cbv beta in Hrow.
    destruct (rd2 ff_speedhq_vlc_table (rd speedhq_index_run run + Z.abs level - 1))
      as [code len].
    cbn [fst snd] in Hrow. destruct Hrow as [Hcode Hlen].
    constructor; [|constructor]. unfold op_ok. cbn [fst snd].
    rewrite lor_sign_bit
      by first [lia | destruct (level <? 0); [right | left]; reflexivity].
    assert (0 < 2 ^ len) by (apply Z.pow_pos_nonneg; lia).
    rewrite Z.pow_add_r by lia. change (2 ^ 1) with 2.
    destruct (level <? 0); lia.
  - repeat constructor; cbn [fst snd]; lia.
Qed.

Lemma runs_ops_ok (lv : Z -> Z) (cnt : nat) (lo p : Z) :
  vlc_rows_ok -> (forall k, -2048 <= lv k <= 2047) ->
  0 <= p < lo -> lo + Z.of_nat cnt <= 64 ->
  Forall op_ok (runs_ops lv p (List.filter (fun k => negb (lv k =? 0)) (zseq lo cnt))).
Proof.
  intros Hrows Hlv. revert lo p.
  induction cnt as [|c IH]; intros lo p Hp Hhi; cbn [zseq List.filter].
  - constructor.
  - destruct (lv lo =? 0); cbn [negb runs_ops].
    + apply IH; lia.
    + apply Forall_app. split; [apply ac_coef_ops_ok; [assumption | lia | apply Hlv]|].
      apply IH; lia.
Qed.

Lemma encode_dc_op_ok (d c : Z) :
  dc_lengths_fit ff_mpeg12_vlc_dc_lum_bits ->
  dc_lengths_fit ff_mpeg12_vlc_dc_chroma_bits ->
  dc_prefix_ok ff_mpeg12_vlc_dc_lum_bits mpeg12_vlc_dc_lum_code_reversed ->
  dc_prefix_ok ff_mpeg12_vlc_dc_chroma_bits mpeg12_vlc_dc_chroma_code_reversed ->
  -2047 <= d <= 2047 ->
  Forall op_ok (encode_dc ([] : PutLog) d c).
Proof.
  intros Hlum Hchr Plum Pchr Hd.
  rewrite encode_dc_is_slow by (assumption || lia).
  rewrite (encode_dc_slow_eq ([] : PutLog) d c). cbv zeta.
  set (index := Z.log2 (2 * Z.abs d)).
  set (tail := av_zero_extend (if d <? 0 then d - 1 else d) index).
  assert (Hidx : 0 <= index <= 11).
  { split; [apply Z.log2_nonneg|].
    destruct (Z.eq_dec d 0) as [->|Hne]; [unfold index; simpl; lia|].
    assert (index < 12); [|lia].
    apply Z.log2_lt_pow2; [lia|]. change (2 ^ 12) with 4096. lia. }
  pose proof (av_zero_extend_bound (if d <? 0 then d - 1 else d) index (proj1 Hidx)) as Ht.
  fold tail in Ht.
  destruct code_reversed_bounds as [Clum Cchr].
  assert (Hgen : forall bits_tab code_tab,
            dc_lengths_fit bits_tab -> dc_prefix_ok bits_tab code_tab ->
            Forall (fun x => 0 <= x < 1024) code_tab ->
            op_ok (rd bits_tab index + index,
                   rd code_tab index + Z.shiftl tail (rd bits_tab index))).
  { intros bits_tab code_tab Hfit Hpre Hc.
    assert (Hb : 0 <= rd bits_tab index <= 15)
      by (apply (rd_Forall (fun b => 0 <= b <= 15)); [lia | exact Hfit]).
    assert (Hcode : 0 <= rd code_tab index < 1024)
      by (apply (rd_Forall (fun x => 0 <= x < 1024)); [lia | exact Hc]).
    specialize (Hpre index Hidx).
    unfold op_ok. cbn [fst snd]. split; [lia|].
    rewrite Z.shiftl_mul_pow2 by lia. rewrite Z.pow_add_r by lia.
    assert (0 < 2 ^ rd bits_tab index) by (apply Z.pow_pos_nonneg; lia).
    nia. }
  simpl put_bits_le. constructor; [|constructor].
  destruct (c =? 0); apply Hgen; assumption.
Qed.

End Contract.

(** X7: when the tables are well formed, the coefficients lie in the range
    [-2048, 2047] that [ff_speedhq_encode_init] sets, the DC difference is
    within 2047 and the last index is at most 63, every call [encode_block]
    makes respects the contract of [put_bits_le]: at most 31 bits and a
    non-negative value that fits them.  In particular every run fits its 6
    bits and every escaped level its 12 bits. *)
Theorem encode_block_calls_in_contract `{T : ExternTables} {W : Type}
    (s : SpeedHQEncContext W) (block : list Z) (n : Z) :
  dc_lengths_fit ff_mpeg12_vlc_dc_lum_bits ->
  dc_lengths_fit ff_mpeg12_vlc_dc_chroma_bits ->
  dc_prefix_ok ff_mpeg12_vlc_dc_lum_bits mpeg12_vlc_dc_lum_code_reversed ->
  dc_prefix_ok ff_mpeg12_vlc_dc_chroma_bits mpeg12_vlc_dc_chroma_code_reversed ->
  vlc_rows_ok ->
  Forall (fun c => -2048 <= c <= 2047) block ->
  (let component := if n <=? 3 then 0 else Z.land n 1 + 1 in
   -2047 <= rd (last_dc s) component - rd block 0 <= 2047) ->
  rd (block_last_index s) n <= 63 ->
  Forall op_ok (emitted s block n).
Proof.
  intros Hlum Hchr Plum Pchr Hrows Hblock Hdiff Hlast. cbv zeta in Hdiff.
  assert (Hint : Forall int16 block).
  { eapply Forall_impl; [exact Hblock|]. intros x Hx. cbv beta in Hx.
    unfold int16. lia. }
  unfold emitted.
  rewrite (encode_block_pb (set_pb s ([] : PutLog))) by exact Hint.
  rewrite put_all_log. cbn [set_pb pb last_dc permutated block_last_index].
  apply Forall_app. split; [apply encode_dc_op_ok; assumption|].
  apply Forall_app. split.
  - unfold ac_ops. apply runs_ops_ok; [assumption | | lia | lia].
    intros k. apply (rd_Forall (fun c => -2048 <= c <= 2047)); [lia | exact Hblock].
  - constructor; [|constructor]. unfold op_ok. cbn [fst snd].
    change (2 ^ 4) with 16. lia.
Qed.

Lemma sample_dc_prefix_ok :
  dc_prefix_ok (@ff_mpeg12_vlc_dc_lum_bits sample_tables) mpeg12_vlc_dc_lum_code_reversed /\
  dc_prefix_ok (@ff_mpeg12_vlc_dc_chroma_bits sample_tables)
               mpeg12_vlc_dc_chroma_code_reversed.
Proof.
  split; intros k Hk;
    assert (Hcases : k = 0 \/ k = 1 \/ k = 2 \/ k = 3 \/ k = 4 \/ k = 5 \/ k = 6 \/
                     k = 7 \/ k = 8 \/ k = 9 \/ k = 10 \/ k = 11) by lia;
    repeat (destruct Hcases as [-> | Hcases]; [reflexivity|]); subst k; reflexivity.
Qed.

Lemma sample_block_clamped (dc j v : Z) :
  -2048 <= dc <= 2047 -> -2048 <= v <= 2047 ->
  Forall (fun c => -2048 <= c <= 2047) (sample_block dc j v).
Proof.
  intros Hdc Hv. unfold sample_block, wr.
  assert (H : Forall (fun c => -2048 <= c <= 2047) (dc :: replicate 63 0)).
  { constructor; [exact Hdc|]. apply Forall_replicate. lia. }
  destruct (0 <=? j); [apply Forall_insert; assumption | exact H].
Qed.

Lemma encode_block_calls_in_contract_witness :
  Forall op_ok (emitted (sample_ctx init_put_bits 5) (sample_block 100 16 (-2000)) 4).
Proof.
  apply (encode_block_calls_in_contract (T := sample_tables)).
  - exact (proj1 sample_dc_lengths_fit).
  - exact (proj2 sample_dc_lengths_fit).
  - exact (proj1 sample_dc_prefix_ok).
  - exact (proj2 sample_dc_prefix_ok).
  - exact sample_vlc_rows_ok.
  - apply sample_block_clamped; lia.
  - by_eval.
  - by_eval.
Defined.

(** X8: a block whose coefficients at the scan positions [1..last_index] are
    all zero, and so every block with [last_index <= 0] whatever its
    entries, is coded as the DC call followed by the end-of-block code
    alone. *)
Theorem encode_block_no_ac {W : Type} `{BW : BitWriter W} `{T : ExternTables}
    (s : SpeedHQEncContext W) (block : list Z) (n : Z) :
  (forall i, 1 <= i <= rd (block_last_index s) n ->
     rd block (rd (permutated s) i) = 0) ->
  let component := if n <=? 3 then 0 else Z.land n 1 + 1 in
  let diff := rd (last_dc s) component - rd block 0 in
  emitted s block n = encode_dc ([] : PutLog) diff component ++ [(4, 6)] /\
  pb (encode_block s block n) = put_bits_le (encode_dc (pb s) diff component) 4 6.
Proof.
  intros Hzero component diff.
  assert (Hac : ac_emitted s block n = []).
  { unfold ac_emitted.
    rewrite (for_range_ext _ (fun _ x => x)); [rewrite for_range_id; reflexivity|].
    intros i [l z] Hi. unfold ac_body. cbn [set_pb permutated].
    rewrite Hzero by lia. reflexivity. }
  split.
  - rewrite emitted_parts, Hac. reflexivity.
  - rewrite encode_block_parts, Hac. reflexivity.
Qed.

Lemma encode_block_no_ac_witness :
  emitted (sample_ctx init_put_bits 0) (sample_block 100 9 55) 0 =
    encode_dc ([] : PutLog) (128 - 100) 0 ++ [(4, 6)].
Proof.
  refine (proj1 (encode_block_no_ac (T := sample_tables)
            (sample_ctx init_put_bits 0) (sample_block 100 9 55) 0 _)).
  intros i Hi.
  change (rd (block_last_index (sample_ctx init_put_bits 0)) 0) with 0 in Hi. lia.
Defined.

(** ** Macroblocks, continued *)

Lemma tex_update_slice_start {W : Type} `{BW : BitWriter W} (x : SpeedHQEncContext W) :
  slice_start (let '(d, s) := get_bits_diff x in
               set_tex_bits s (i_tex_bits s + d) (last_bits s)) = slice_start x.
Proof. reflexivity. Qed.

Lemma fold_blocks_slice_start {W : Type} `{BW : BitWriter W} `{T : ExternTables}
    (block : list (list Z)) (order : list Z) (s : SpeedHQEncContext W) :
  slice_start (fold_left (fun st i => encode_block st (rd_block block i) i) order s) =
    slice_start s.
Proof.
  revert s. induction order as [|i rest IH]; intros s; cbn [fold_left].
  - reflexivity.
  - rewrite IH. reflexivity.
Qed.

(** A macroblock as the run of its blocks in wire order. *)
Lemma encode_mb_fold {W : Type} `{BW : BitWriter W} `{T : ExternTables}
    (s : SpeedHQEncContext W) (block : list (list Z)) :
  let run := fold_left (fun st i => encode_block st (rd_block block i) i)
                       (mb_block_order (chroma_format s)) s in
  pb (ff_speedhq_encode_mb s block) = pb run /\
  last_dc (ff_speedhq_encode_mb s block) = last_dc run /\
  slice_start (ff_speedhq_encode_mb s block) = slice_start s.
Proof.
  intros run. rewrite <- (fold_blocks_slice_start block (mb_block_order (chroma_format s)) s).
  fold run. unfold run, ff_speedhq_encode_mb.
  rewrite for_range_fold. change (zseq 0 6) with [0; 1; 2; 3; 4; 5].
  cbv zeta. rewrite fold_blocks_chroma.
  match goal with
  | |- context [get_bits_diff ?x] =>
      destruct (tex_update_frame x) as [-> ->]; rewrite (tex_update_slice_start x)
  end.
  destruct (chroma_format s); cbn [mb_block_order fold_left]; repeat split; reflexivity.
Qed.

(** X9: after a macroblock the three DC predictors are the DC coefficients
    of its last luma block (block 3) and of its last Cb and Cr blocks in
    wire order: blocks 4 and 5 for 4:2:0, 6 and 7 for 4:2:2, 10 and 11 for
    4:4:4. *)
Theorem encode_mb_last_dc {W : Type} `{BW : BitWriter W} `{T : ExternTables}
    (s : SpeedHQEncContext W) (block : list (list Z)) :
  length (last_dc s) = 3%nat ->
  last_dc (ff_speedhq_encode_mb s block) =
    [rd (rd_block block 3) 0;
     rd (rd_block block (fst (mb_last_chroma (chroma_format s)))) 0;
     rd (rd_block block (snd (mb_last_chroma (chroma_format s)))) 0].
Proof.
  intros Hlen. destruct (encode_mb_fold s block) as (_ & -> & _).
  destruct (last_dc s) as [|a [|b [|c [|x l]]]] eqn:Hdc; try discriminate Hlen.
  destruct (chroma_format s); cbn [mb_block_order fold_left mb_last_chroma fst snd];
    rewrite !encode_block_last_dc, Hdc; reflexivity.
Qed.

Lemma encode_mb_last_dc_witness :
  last_dc (ff_speedhq_encode_mb sample_ctx_444 sample_mb) =
    [rd (rd_block sample_mb 3) 0; rd (rd_block sample_mb 10) 0;
     rd (rd_block sample_mb 11) 0].
Proof. apply (encode_mb_last_dc (T := sample_tables) sample_ctx_444 sample_mb). reflexivity. Defined.

(** ** Initialisation, continued *)



(** ** Slice framing, continued *)

Lemma rd_app_r (l l' : list Z) (j : Z) :
  0 <= j -> rd (l ++ l') (Z.of_nat (length l) + j) = rd l' j.
Proof.
  intros Hj. rewrite !rd_nth by lia. rewrite !nth_lookup.
  rewrite lookup_app_r by lia. do 2 f_equal. lia.
Qed.

Lemma length_le_bytes (k : nat) (x : Z) : length (le_bytes k x) = k.
Proof. revert x. induction k as [|k IH]; intros x; simpl; [reflexivity | rewrite IH; reflexivity]. Qed.

Lemma AV_RL24_app_l (l l' : list Z) (off : Z) :
  off + 3 <= Z.of_nat (length l) -> AV_RL24 (l ++ l') off = AV_RL24 l off.
Proof. intros H. unfold AV_RL24. rewrite !rd_app_l by lia. reflexivity. Qed.

Lemma AV_RL24_app_r (l l' : list Z) :
  AV_RL24 (l ++ l') (Z.of_nat (length l)) = AV_RL24 l' 0.
Proof.
  unfold AV_RL24.
  rewrite <- (Z.add_0_r (Z.of_nat (length l))) at 1.
  rewrite !rd_app_r by lia. reflexivity.
Qed.

Lemma AV_RL24_WL24_other (b : list Z) (off off' v : Z) :
  off + 3 <= off' -> AV_RL24 (AV_WL24 b off' v) off = AV_RL24 b off.
Proof.
  intros H. unfold AV_RL24, AV_WL24. rewrite !rd_wr_other by lia. reflexivity.
Qed.

Lemma AV_RL24_WL24_mod (b : list Z) (off v : Z) :
  0 <= off -> off + 3 <= Z.of_nat (length b) ->
  AV_RL24 (AV_WL24 b off v) off = v mod 2 ^ 24.
Proof.
  intros Hoff Hlen. unfold AV_RL24, AV_WL24.
  rewrite (rd_wr_same _ (off + 2)) by (rewrite !length_wr; lia).
  rewrite (rd_wr_other _ (off + 2) (off + 1)) by lia.
  rewrite (rd_wr_same _ (off + 1)) by (rewrite !length_wr; lia).
  rewrite (rd_wr_other _ (off + 2) off) by lia.
  rewrite (rd_wr_other _ (off + 1) off) by lia.
  rewrite rd_wr_same by lia.
  change (2 ^ 24) with 16777216.
  replace (v / 65536) with (v / 256 / 256) by (rewrite Z.div_div by lia; reflexivity).
  pose proof (Z.div_mod v 256). pose proof (Z.mod_pos_bound v 256).
  pose proof (Z.div_mod (v / 256) 256). pose proof (Z.mod_pos_bound (v / 256) 256).
  pose proof (Z.div_mod (v / 256 / 256) 256).
  pose proof (Z.mod_pos_bound (v / 256 / 256) 256).
  apply Z.mod_unique with (v / 256 / 256 / 256); lia.
Qed.

(** The byte writer counts what it is given: a call of [n] bits advances the
    bit count by [n]. *)
Lemma put_bits_count_put (p : PutBitContext) (n v : Z) :
  wf_pb p -> 0 <= n ->
  put_bits_count (put_bits_le p n v) = put_bits_count p + n /\
  exists suf, buf (put_bits_le p n v) = buf p ++ suf.
Proof.
  intros [Hp Hb] Hn. split; [|eexists; reflexivity].
  simpl. unfold put_bytes_output, put_bits_le_bytes. cbn [buf bit_pos].
  rewrite length_app, length_le_bytes.
  assert (0 <= (bit_pos p + n) / 8) by (apply Z.div_pos; lia).
  rewrite Nat2Z.inj_add, Z2Nat.id by lia.
  pose proof (Z.div_mod (bit_pos p + n) 8). lia.
Qed.

Lemma put_all_bytes (ops : list (Z * Z)) (p : PutBitContext) :
  wf_pb p -> Forall (fun op => 0 <= fst op) ops ->
  wf_pb (put_all p ops) /\
  put_bits_count p <= put_bits_count (put_all p ops) /\
  exists suf, buf (put_all p ops) = buf p ++ suf.
Proof.
  revert p. induction ops as [|[n v] ops IH]; intros p Hwf Hops.
  - split; [exact Hwf|]. split; [apply Z.le_refl|]. exists []. symmetry. apply app_nil_r.
  - apply Forall_cons in Hops. destruct Hops as [Hn Hops]. cbn [fst] in Hn.
    rewrite put_all_cons.
    destruct (put_bits_count_put p n v Hwf Hn) as [Hcnt [suf1 Hsuf1]].
    destruct (IH (put_bits_le p n v) (wf_put_bits_le p n v Hn Hwf) Hops)
      as (Hwf' & Hle & suf2 & Hsuf2).
    split; [exact Hwf'|]. split; [lia|].
    exists (suf1 ++ suf2). rewrite Hsuf2, Hsuf1, app_assoc. reflexivity.
Qed.

(** The byte offset after alignment is the bit count rounded up to bytes. *)
Lemma flush_bytes (p : PutBitContext) :
  wf_pb p -> put_bytes_output (flush_put_bits_le p) = (put_bits_count p + 7) / 8.
Proof.
  intros [Hp Hb]. simpl. unfold flush_put_bits_le, put_bytes_output.
  destruct (0 <? bit_pos p) eqn:E; cbn [buf].
  - rewrite length_app. simpl length. Z.div_mod_to_equations. lia.
  - Z.div_mod_to_equations. lia.
Qed.

Lemma slice_len_field_eq (s : SpeedHQEncContext PutBitContext) :
  slice_open s ->
  slice_len_field s =
    (put_bytes_output (flush_put_bits_le (pb s)) - slice_start s) mod 2 ^ 24.
Proof.
  intros (Hwf & Hss & Hlen). unfold slice_len_field.
  destruct (end_slice_state s Hwf) as [_ ->]. cbn [buf].
  unfold put_bytes_output in *.
  rewrite AV_RL24_app_l by (rewrite length_AV_WL24; lia).
  apply AV_RL24_WL24_mod; lia.
Qed.

Lemma slice_open_end_slice (s : SpeedHQEncContext PutBitContext) :
  slice_open s ->
  slice_open (ff_speedhq_end_slice s) /\
  put_bytes_output (pb (ff_speedhq_end_slice s)) = slice_start (ff_speedhq_end_slice s) + 3 /\
  bit_pos (pb (ff_speedhq_end_slice s)) = 0 /\
  slice_start s + 3 <= slice_start (ff_speedhq_end_slice s).
Proof.
  intros (Hwf & Hss & Hlen).
  destruct (end_slice_state s Hwf) as [Hs Hpb].
  assert (Hout : put_bytes_output (pb (ff_speedhq_end_slice s)) =
                 slice_start (ff_speedhq_end_slice s) + 3).
  { rewrite Hs, Hpb. unfold put_bytes_output. cbn [buf].
    rewrite length_app, length_AV_WL24. simpl length. lia. }
  assert (Hwf' : wf_pb (pb (ff_speedhq_end_slice s)))
    by (rewrite Hpb; unfold wf_pb; simpl; lia).
  split; [|split; [exact Hout|split; [rewrite Hpb; reflexivity | lia]]].
  split; [exact Hwf'|]. split; [lia|].
  assert (Hfl : flush_put_bits_le (pb (ff_speedhq_end_slice s)) =
                pb (ff_speedhq_end_slice s)).
  { unfold flush_put_bits_le.
    replace (bit_pos (pb (ff_speedhq_end_slice s))) with 0 by (rewrite Hpb; reflexivity).
    reflexivity. }
  rewrite Hfl, Hout. lia.
Qed.

(** X11: [ff_speedhq_end_slice] leaves the framing ready for the next slice:
    the new [slice_start] is at least 3 bytes further, it is the offset of
    the three zero bytes just appended, which end the output, and the writer
    is byte-aligned. *)
Theorem end_slice_reopens (s : SpeedHQEncContext PutBitContext) :
  slice_open s ->
  let s' := ff_speedhq_end_slice s in
  slice_open s' /\
  slice_start s + 3 <= slice_start s' /\
  put_bytes_output (pb s') = slice_start s' + 3 /\
  bit_pos (pb s') = 0 /\
  AV_RL24 (buf (pb s')) (slice_start s') = 0.
Proof.
  intros Hopen s'.
  destruct (slice_open_end_slice s Hopen) as (Hopen' & Hout & Hpos & Hadv).
  fold s' in Hopen', Hout, Hpos, Hadv.
  split; [exact Hopen'|]. split; [exact Hadv|]. split; [exact Hout|].
  split; [exact Hpos|].
  destruct Hopen as (Hwf & Hss & Hlen).
  destruct (end_slice_state s Hwf) as [Hs Hpb]. fold s' in Hs, Hpb.
  rewrite Hpb, Hs. cbn [buf].
  set (patched := AV_WL24 _ _ _).
  replace (put_bytes_output (flush_put_bits_le (pb s)))
    with (Z.of_nat (length patched))
    by (unfold patched; rewrite length_AV_WL24; reflexivity).
  apply AV_RL24_app_r.
Qed.

Lemma end_slice_reopens_witness :
  slice_open (ff_speedhq_end_slice sample_picture) /\
  slice_start sample_picture + 3 <= slice_start (ff_speedhq_end_slice sample_picture) /\
  put_bytes_output (pb (ff_speedhq_end_slice sample_picture)) =
    slice_start (ff_speedhq_end_slice sample_picture) + 3 /\
  bit_pos (pb (ff_speedhq_end_slice sample_picture)) = 0 /\
  AV_RL24 (buf (pb (ff_speedhq_end_slice sample_picture)))
          (slice_start (ff_speedhq_end_slice sample_picture)) = 0.
Proof. exact (end_slice_reopens sample_picture slice_open_sample_picture). Defined.

(** X12: the length field is 24 bits wide and [ff_speedhq_end_slice] does
    not check the slice against it: the field holds the distance to the next
    length field modulo [2^24], so a slice of [2^24] bytes or more is framed
    with a length smaller than its size. *)
Theorem end_slice_field_wraps (s : SpeedHQEncContext PutBitContext) :
  slice_open s ->
  let dist := slice_start (ff_speedhq_end_slice s) - slice_start s in
  slice_len_field s = dist mod 2 ^ 24 /\
  (dist < 2 ^ 24 -> slice_len_field s = dist) /\
  (2 ^ 24 <= dist -> slice_len_field s < dist).
Proof.
  intros Hopen dist.
  pose proof (slice_len_field_eq s Hopen) as Hf.
  destruct Hopen as (Hwf & Hss & Hlen).
  destruct (end_slice_state s Hwf) as [Hs _].
  unfold dist. rewrite Hs.
  set (d := put_bytes_output (flush_put_bits_le (pb s)) - slice_start s) in *.
  assert (Hd : 0 <= d) by (unfold d; lia).
  split; [exact Hf|]. rewrite Hf.
  pose proof (Z.mod_pos_bound d (2 ^ 24)).
  split; intros Hcmp; [apply Z.mod_small | ]; lia.
Qed.

Lemma end_slice_field_wraps_witness :
  slice_len_field sample_picture =
    (slice_start (ff_speedhq_end_slice sample_picture) - slice_start sample_picture)
      mod 2 ^ 24.
Proof. exact (proj1 (end_slice_field_wraps sample_picture slice_open_sample_picture)). Defined.

(** X13: closing a slice right after the previous one, with nothing
    encoded in between, frames an empty slice: no payload byte, and a length
    field of 3. *)
Theorem end_slice_empty_slice (s : SpeedHQEncContext PutBitContext) :
  slice_open s ->
  payload_bytes (ff_speedhq_end_slice s) = 0 /\
  slice_len_field (ff_speedhq_end_slice s) = 3.
Proof.
  intros Hopen.
  destruct (slice_open_end_slice s Hopen) as (Hopen' & Hout & Hpos & _).
  set (s' := ff_speedhq_end_slice s) in *.
  assert (Hflush : put_bytes_output (flush_put_bits_le (pb s')) = slice_start s' + 3).
  { unfold flush_put_bits_le. rewrite Hpos. cbn [Z.ltb Z.compare]. exact Hout. }
  split.
  - unfold payload_bytes. destruct Hopen' as (Hwf' & _ & _).
    destruct (end_slice_state s' Hwf') as [-> _]. lia.
  - rewrite (slice_len_field_eq s' Hopen'), Hflush.
    replace (slice_start s' + 3 - slice_start s') with 3 by lia. reflexivity.
Qed.

Lemma end_slice_empty_slice_witness :
  payload_bytes (ff_speedhq_end_slice sample_picture) = 0 /\
  slice_len_field (ff_speedhq_end_slice sample_picture) = 3.
Proof. exact (end_slice_empty_slice sample_picture slice_open_sample_picture). Defined.

(** X14: written to an aligned writer that holds [k] bytes,
    [ff_speedhq_encode_picture_header] appends seven bytes: the quality
    byte, the 24-bit value 4 and the zeroed length field, which thus sits at
    offset [k + 4], while [slice_start] is set to 4 whatever [k] is.  At the
    start of the output ([k = 0]) the 24-bit value of the header is
    [slice_start], which is the offset of the length field, and the framing
    is ready for [ff_speedhq_end_slice]. *)
Theorem picture_header_opens_slice (s : SpeedHQEncContext PutBitContext) :
  bit_pos (pb s) = 0 -> bit_buf (pb s) = 0 ->
  let k := put_bytes_output (pb s) in
  let s' := ff_speedhq_encode_picture_header s in
  buf (pb s') = buf (pb s) ++ [(100 - 2 * qscale s) mod 256; 4; 0; 0; 0; 0; 0] /\
  put_bytes_output (pb s') = k + 7 /\
  AV_RL24 (buf (pb s')) (k + 1) = 4 /\
  AV_RL24 (buf (pb s')) (k + 4) = 0 /\
  slice_start s' = 4 /\
  (k = 0 -> slice_open s' /\ AV_RL24 (buf (pb s')) 1 = slice_start s').
Proof.
  intros Hp Hb k s'.
  assert (Hpb : pb s' = {| buf := buf (pb s) ++
                             [(100 - 2 * qscale s) mod 256; 4; 0; 0; 0; 0; 0];
                           bit_buf := 0; bit_pos := 0 |}).
  { unfold s', ff_speedhq_encode_picture_header.
    cbn [set_pb set_slice_start pb qscale].
    rewrite (put_bits_le_aligned (pb s) 1) by assumption.
    rewrite (put_bits_le_aligned _ 3) by reflexivity.
    rewrite (put_bits_le_aligned _ 3) by reflexivity.
    cbn [buf le_bytes]. change (2 ^ (8 * Z.of_nat 1)) with 256.
    rewrite Z.mod_mod by lia. rewrite <- !app_assoc.
    replace (qscale s * 2) with (2 * qscale s) by lia. reflexivity. }
  assert (Hbuf : buf (pb s') = buf (pb s) ++
                   [(100 - 2 * qscale s) mod 256; 4; 0; 0; 0; 0; 0])
    by (rewrite Hpb; reflexivity).
  assert (Hout : put_bytes_output (pb s') = k + 7).
  { unfold put_bytes_output, k. rewrite Hbuf, length_app. simpl length.
    unfold put_bytes_output. lia. }
  assert (Hrd : forall j, 0 <= j ->
            rd (buf (pb s')) (k + j) =
            rd [(100 - 2 * qscale s) mod 256; 4; 0; 0; 0; 0; 0] j).
  { intros j Hj. rewrite Hbuf. unfold k, put_bytes_output. apply rd_app_r. exact Hj. }
  split; [exact Hbuf|]. split; [exact Hout|].
  split; [|split; [|split; [reflexivity|]]].
  - unfold AV_RL24. replace (k + 1 + 1) with (k + 2) by lia.
    replace (k + 1 + 2) with (k + 3) by lia.
    rewrite !Hrd by lia. reflexivity.
  - unfold AV_RL24. replace (k + 4 + 1) with (k + 5) by lia.
    replace (k + 4 + 2) with (k + 6) by lia.
    rewrite !Hrd by lia. reflexivity.
  - intros Hk. split.
    + unfold slice_open. split; [rewrite Hpb; unfold wf_pb; simpl; lia|].
      split; [change (slice_start s') with 4; lia|].
      change (slice_start s') with 4.
      replace (flush_put_bits_le (pb s')) with (pb s')
        by (rewrite Hpb; reflexivity).
      rewrite Hout. lia.
    + change (slice_start s') with 4. unfold AV_RL24.
      replace 1 with (k + 1) at 1 by lia. replace (1 + 1) with (k + 2) by lia.
      replace (1 + 2) with (k + 3) by lia.
      rewrite !Hrd by lia. reflexivity.
Qed.

Lemma picture_header_opens_slice_witness :
  slice_open (ff_speedhq_encode_picture_header (sample_ctx init_put_bits 0)).
Proof.
  apply (picture_header_opens_slice (sample_ctx init_put_bits 0) eq_refl eq_refl).
  reflexivity.
Defined.

Section AppendOnly.
Context `{T : ExternTables}.

Lemma encode_dc_nonneg (d c : Z) :
  lengths_nonneg -> Forall (fun op => 0 <= fst op) (encode_dc ([] : PutLog) d c).
Proof.
  intros (Hlum & Hchr & _).
  assert (Hl : forall i, 0 <= rd ff_mpeg12_vlc_dc_lum_bits i)
    by (intros i; apply (rd_Forall (fun b => 0 <= b)); [lia | exact Hlum]).
  assert (Hc : forall i, 0 <= rd ff_mpeg12_vlc_dc_chroma_bits i)
    by (intros i; apply (rd_Forall (fun b => 0 <= b)); [lia | exact Hchr]).
  unfold encode_dc, encode_dc_slow, encode_dc_fast, av_log2_16bit.
  destruct (511 <=? (d + 255) mod 2 ^ 32).
  - destruct (d <? 0); destruct (c =? 0); simpl put_bits_le;
      (constructor; [|constructor]); cbn [fst];
      match goal with
      | |- 0 <= rd _ (Z.log2 ?x) + Z.log2 ?x =>
          pose proof (Z.log2_nonneg x); pose proof (Hl (Z.log2 x));
          pose proof (Hc (Z.log2 x)); lia
      end.
  - destruct (c =? 0); simpl put_bits_le; (constructor; [|constructor]); cbn [fst];
      apply Z.land_nonneg; right; lia.
Qed.

Lemma ac_emitted_nonneg {W : Type} (s : SpeedHQEncContext W) (block : list Z) (n : Z) :
  lengths_nonneg -> Forall (fun op => 0 <= fst op) (ac_emitted s block n).
Proof.
  intros (_ & _ & Hvlc). unfold ac_emitted.
  apply (for_range_inv (fun st : PutLog * Z => Forall (fun op => 0 <= fst op) (fst st))).
  - constructor.
  - intros i [l z] Hl. cbn [fst] in Hl. unfold ac_body.
    destruct (negb (rd block (rd (permutated (set_pb s ([] : PutLog))) i) =? 0));
      [|exact Hl].
    destruct (MASK_ABS (rd block (rd (permutated (set_pb s ([] : PutLog))) i)))
      as [sign alevel].
    destruct (alevel <=? rd speedhq_max_level (i - z - 1)); cbn [fst];
      simpl put_bits_le; rewrite ?Forall_app; repeat split; try exact Hl;
      (constructor; [|constructor]); cbn [fst]; try lia.
    assert (H0 : (fun r : Z * Z => 0 <= snd r) (0, 0)) by (simpl; lia).
    pose proof (rd2_Forall _ ff_speedhq_vlc_table
                  (rd speedhq_index_run (i - z - 1) + alevel - 1) H0 Hvlc) as Hrow.
    cbv beta in Hrow. lia.
Qed.

Lemma emitted_nonneg {W : Type} (s : SpeedHQEncContext W) (block : list Z) (n : Z) :
  lengths_nonneg -> Forall (fun op => 0 <= fst op) (emitted s block n).
Proof.
  intros Hnn. rewrite emitted_parts. rewrite !Forall_app.
  split; [apply encode_dc_nonneg; exact Hnn|].
  split; [apply ac_emitted_nonneg; exact Hnn|].
  constructor; [cbn [fst]; lia | constructor].
Qed.

Lemma mb_emitted_nonneg {W : Type} `{BW : BitWriter W} (block : list (list Z))
    (order : list Z) (s : SpeedHQEncContext W) :
  lengths_nonneg -> Forall (fun op => 0 <= fst op) (mb_emitted s block order).
Proof.
  intros Hnn. revert s. induction order as [|i rest IH]; intros s; cbn [mb_emitted].
  - constructor.
  - apply Forall_app. split; [apply emitted_nonneg; exact Hnn | apply IH].
Qed.

(** A macroblock on the byte writer: calls of non-negative widths appended
    to the writer, [slice_start] untouched. *)
Lemma encode_mb_put_all (s : SpeedHQEncContext PutBitContext) (block : list (list Z)) :
  lengths_nonneg ->
  exists ops,
    Forall (fun op => 0 <= fst op) ops /\
    pb (ff_speedhq_encode_mb s block) = put_all (pb s) ops /\
    slice_start (ff_speedhq_encode_mb s block) = slice_start s.
Proof.
  intros Hnn. exists (mb_emitted s block (mb_block_order (chroma_format s))).
  destruct (encode_mb_fold s block) as (Hpb & _ & Hss).
  split; [apply mb_emitted_nonneg; exact Hnn|].
  split; [rewrite Hpb; apply fold_blocks_emitted | exact Hss].
Qed.

End AppendOnly.

(** X15: when no table holds a negative length, [ff_speedhq_encode_mb] only
    appends to the output: the bytes written before stay as they are, the
    bit count does not decrease, [slice_start] is unchanged and the open
    length field remains within the output. *)
Theorem encode_mb_appends `{T : ExternTables} (s : SpeedHQEncContext PutBitContext)
    (block : list (list Z)) :
  lengths_nonneg -> slice_open s ->
  let s' := ff_speedhq_encode_mb s block in
  (exists suf, buf (pb s') = buf (pb s) ++ suf) /\
  put_bits_count (pb s) <= put_bits_count (pb s') /\
  slice_start s' = slice_start s /\
  slice_open s'.
Proof.
  intros Hnn (Hwf & Hss & Hlen) s'.
  destruct (encode_mb_put_all s block Hnn) as (ops & Hops & Hpb & Hstart).
  fold s' in Hpb, Hstart.
  destruct (put_all_bytes ops (pb s) Hwf Hops) as (Hwf' & Hcnt & Hsuf).
  rewrite <- Hpb in Hwf', Hcnt, Hsuf.
  split; [exact Hsuf|]. split; [exact Hcnt|]. split; [exact Hstart|].
  split; [exact Hwf'|]. rewrite Hstart. split; [exact Hss|].
  rewrite flush_bytes in * by assumption.
  assert ((put_bits_count (pb s) + 7) / 8 <= (put_bits_count (pb s') + 7) / 8)
    by (apply Z.div_le_mono; lia).
  lia.
Qed.

Lemma sample_lengths_nonneg : @lengths_nonneg sample_tables.
Proof. unfold lengths_nonneg. simpl. repeat split; repeat constructor; simpl; lia. Qed.

Lemma encode_mb_appends_witness :
  slice_open (ff_speedhq_encode_mb sample_picture (replicate 12 (sample_block 100 1 1))).
Proof.
  apply (encode_mb_appends (T := sample_tables) sample_picture
           (replicate 12 (sample_block 100 1 1))
           sample_lengths_nonneg slice_open_sample_picture).
Defined.

Lemma end_slice_placeholder (s : SpeedHQEncContext PutBitContext) :
  wf_pb (pb s) ->
  AV_RL24 (buf (pb (ff_speedhq_end_slice s))) (slice_start (ff_speedhq_end_slice s)) = 0.
Proof.
  intros Hwf. destruct (end_slice_state s Hwf) as [-> ->]. cbn [buf].
  set (patched := AV_WL24 _ _ _).
  replace (put_bytes_output (flush_put_bits_le (pb s)))
    with (Z.of_nat (length patched))
    by (unfold patched; rewrite length_AV_WL24; reflexivity).
  apply AV_RL24_app_r.
Qed.

(** X16: the length fields of consecutive slices form a chain in the final
    output.  After a slice is closed, a macroblock encoded and the next
    slice closed, adding to the offset of the first length field the value
    read there gives the offset of the second, adding the value read there
    gives the offset of the placeholder that ends the output, and the
    placeholder reads 0: closing the second slice leaves the first field as
    it was. *)
Theorem slice_chain `{T : ExternTables} (s : SpeedHQEncContext PutBitContext)
    (block : list (list Z)) :
  forall s1 s2 s3 : SpeedHQEncContext PutBitContext,
  lengths_nonneg -> slice_open s ->
  s1 = ff_speedhq_end_slice s ->
  s2 = ff_speedhq_encode_mb s1 block ->
  s3 = ff_speedhq_end_slice s2 ->
  slice_start s1 - slice_start s < 2 ^ 24 ->
  slice_start s3 - slice_start s1 < 2 ^ 24 ->
  slice_start s + AV_RL24 (buf (pb s3)) (slice_start s) = slice_start s1 /\
  slice_start s1 + AV_RL24 (buf (pb s3)) (slice_start s1) = slice_start s3 /\
  AV_RL24 (buf (pb s3)) (slice_start s3) = 0.
Proof.
  intros s1 s2 s3 Hnn Hopen E1 E2 E3 Hlen1 Hlen2.
  (* the first slice *)
  pose proof (slice_len_field_eq s Hopen) as Hf1. unfold slice_len_field in Hf1.
  destruct (slice_open_end_slice s Hopen) as (Hopen1 & Hout1 & _ & Hadv1).
  assert (Hs1 : slice_start s1 = put_bytes_output (flush_put_bits_le (pb s)))
    by (rewrite E1; destruct Hopen as (Hwf & _); apply (end_slice_state s Hwf)).
  rewrite <- E1 in Hf1, Hopen1, Hout1, Hadv1.
  rewrite <- Hs1 in Hf1.
  rewrite Z.mod_small in Hf1 by (destruct Hopen as (_ & ? & _); lia).
  (* the macroblock *)
  destruct (encode_mb_put_all s1 block Hnn) as (ops & Hops & Hpb2 & Hss2).
  rewrite <- E2 in Hpb2, Hss2.
  destruct Hopen1 as (Hwf1 & Hss1 & Hin1).
  destruct (put_all_bytes ops (pb s1) Hwf1 Hops) as (Hwf2 & Hcnt & suf & Hsuf).
  rewrite <- Hpb2 in Hwf2, Hcnt, Hsuf.
  assert (Hopen2 : slice_open s2).
  { split; [exact Hwf2|]. rewrite Hss2. split; [exact Hss1|].
    rewrite (flush_bytes (pb s2) Hwf2). rewrite (flush_bytes (pb s1) Hwf1) in Hin1.
    assert ((put_bits_count (pb s1) + 7) / 8 <= (put_bits_count (pb s2) + 7) / 8)
      by (apply Z.div_le_mono; lia).
    lia. }
  (* the second slice *)
  pose proof (slice_len_field_eq s2 Hopen2) as Hf2. unfold slice_len_field in Hf2.
  destruct (end_slice_state s2 Hwf2) as [Hs3 Hpb3].
  rewrite <- E3 in Hf2, Hs3, Hpb3.
  rewrite <- Hs3, Hss2 in Hf2.
  assert (Hadv2 : slice_start s1 + 3 <= slice_start s3).
  { rewrite Hs3. destruct Hopen2 as (_ & _ & H). rewrite Hss2 in H. exact H. }
  rewrite Z.mod_small in Hf2 by lia.
  split; [|split; [rewrite Hf2; lia | rewrite E3; apply end_slice_placeholder; exact Hwf2]].
  (* the first field is still there *)
  assert (Hkeep : AV_RL24 (buf (pb s3)) (slice_start s) =
                  AV_RL24 (buf (pb s1)) (slice_start s)).
  { rewrite Hpb3. cbn [buf].
    assert (Hlen1' : Z.of_nat (length (buf (pb s1))) = slice_start s1 + 3)
      by exact Hout1.
    rewrite AV_RL24_app_l
      by (rewrite length_AV_WL24, flush_buf, Hsuf, !length_app; lia).
    rewrite AV_RL24_WL24_other by (rewrite Hss2; lia).
    rewrite flush_buf, Hsuf, <- app_assoc.
    apply AV_RL24_app_l. lia. }
  rewrite Hkeep, Hf1. lia.
Qed.

Lemma slice_chain_witness :
  slice_start sample_picture +
    AV_RL24 (buf (pb sample_two_slices)) (slice_start sample_picture) =
    slice_start (ff_speedhq_end_slice sample_picture) /\
  slice_start (ff_speedhq_end_slice sample_picture) +
    AV_RL24 (buf (pb sample_two_slices))
            (slice_start (ff_speedhq_end_slice sample_picture)) =
    slice_start sample_two_slices /\
  AV_RL24 (buf (pb sample_two_slices)) (slice_start sample_two_slices) = 0.
Proof.
  apply (slice_chain (T := sample_tables) sample_picture
           (replicate 12 (sample_block 100 1 1))
           (ff_speedhq_end_slice sample_picture)
           (ff_speedhq_encode_mb (ff_speedhq_end_slice sample_picture)
              (replicate 12 (sample_block 100 1 1)))
           sample_two_slices
           sample_lengths_nonneg slice_open_sample_picture eq_refl eq_refl eq_refl).
  - by_eval.
  - by_eval.
Defined.
